(** * organize_media.py: classification, renaming and de-duplication

    A shallow embedding of [src/organize_media.py] and the properties of
    its pipeline: [categorize], [sanitized_name], [unique_path],
    [get_photo_datetime] and the main loop [organise].

    Conventions of the embedding.
    - A Python [str] is a Rocq [string]; a character is a code point in
      the range 0..255 (ASCII and Latin-1).
    - A [Path] is handled through its last component: [os.walk] yields
      plain file names (non-empty, no separator), so [Path.name] of
      [Path(root) / file] is [file].
    - The file system, the clock and the imaging library are inputs: a
      source file carries what reading, [stat], PIL and [shutil.copy2]
      do on it.
    - [hashlib.sha256] and [bytes.decode] are parameters of the
      development. *)

From Stdlib Require Import Ascii String.
From stdpp Require Import base decidable option numbers list countable
  strings pretty gmap fin_maps fin_sets.

Local Open Scope string_scope.
Local Open Scope list_scope.
Local Open Scope nat_scope.
Local Open Scope stdpp_scope.

(** ** Strings *)

Module Str.

(** [str.isspace] on one character, which is also what [str.strip()]
    removes and what the pattern [\s] matches on a [str]:
    U+0009..U+000D, U+001C..U+001F, U+0020, U+0085 and U+00A0 are the
    white-space code points below 256. *)
Definition isspace (c : ascii) : bool :=
  let n := N_of_ascii c in
  ((9 <=? n) && (n <=? 13) || (28 <=? n) && (n <=? 32)
   || (n =? 133) || (n =? 160))%N.

Definition is_underscore (c : ascii) : bool := Ascii.eqb c "_".

(** [str.lower] on one character: A..Z and the Latin-1 capitals
    U+00C0..U+00DE (without the multiplication sign U+00D7). *)
Definition lower_char (c : ascii) : ascii :=
  let n := N_of_ascii c in
  if ((65 <=? n) && (n <=? 90)
      || (192 <=? n) && (n <=? 222) && negb (n =? 215))%N
  then ascii_of_N (n + 32) else c.

Fixpoint lower (s : string) : string :=
  match s with
  | EmptyString => EmptyString
  | String c r => String (lower_char c) (lower r)
  end.

Fixpoint lstrip (s : string) : string :=
  match s with
  | EmptyString => EmptyString
  | String c r => if isspace c then lstrip r else s
  end.

Fixpoint rstrip (s : string) : string :=
  match s with
  | EmptyString => EmptyString
  | String c r =>
      match rstrip r with
      | EmptyString => if isspace c then EmptyString else String c EmptyString
      | r' => String c r'
      end
  end.

(** [s.strip()] *)
Definition strip (s : string) : string := rstrip (lstrip s).

(** [re.sub(p+, "_", s)] for a one-character class [p]: every maximal
    run of characters of the class is replaced by one underscore.
    [in_run] tells that the previous character belonged to the run
    being replaced. *)
Fixpoint sub_runs (p : ascii -> bool) (in_run : bool) (s : string) : string :=
  match s with
  | EmptyString => EmptyString
  | String c r =>
      if p c then
        if in_run then sub_runs p true r
        else String "_" (sub_runs p true r)
      else String c (sub_runs p false r)
  end.

Definition re_sub_plus (p : ascii -> bool) (s : string) : string :=
  sub_runs p false s.

(** [s.rfind(c)], [None] for -1. *)
Fixpoint rfind (c : ascii) (s : string) : option nat :=
  match s with
  | EmptyString => None
  | String a r =>
      match rfind c r with
      | Some i => Some (S i)
      | None => if Ascii.eqb a c then Some 0 else None
      end
  end.

(** [s[:i]] and [s[i:]] for [0 <= i]. *)
Fixpoint take (i : nat) (s : string) : string :=
  match i, s with
  | S j, String c r => String c (take j r)
  | _, _ => EmptyString
  end.

Fixpoint drop (i : nat) (s : string) : string :=
  match i, s with
  | S j, String _ r => drop j r
  | _, _ => s
  end.

(** Every character satisfies [p]. *)
Fixpoint all (p : ascii -> bool) (s : string) : bool :=
  match s with
  | EmptyString => true
  | String c r => p c && all p r
  end.

(** Some character satisfies [p]. *)
Fixpoint any (p : ascii -> bool) (s : string) : bool :=
  match s with
  | EmptyString => false
  | String c r => p c || any p r
  end.

(** [s] padded on the left with zeros up to width [w]. *)
Definition zfill (w : nat) (s : string) : string :=
  String.string_of_list_ascii (replicate (w - String.length s)%nat "0"%char) +:+ s.

End Str.

(** ** NameSanitizer: [sanitized_name] *)

(** [[
   def sanitized_name(name: str) -> str:
       name = re.sub(r"\s+", "_", name.strip())
       name = re.sub(r"_+", "_", name)
       return name
   ]] *)
Definition sanitized_name (name : string) : string :=
  let name := Str.re_sub_plus Str.isspace (Str.strip name) in
  let name := Str.re_sub_plus Str.is_underscore name in
  name.

(** ** Path components *)

(** [Path.suffix] and [Path.stem] of a path whose last component is
    [name]: the suffix starts at the last dot, unless that dot is the
    first or the last character of the name. *)
Definition has_suffix (name : string) : option nat :=
  match Str.rfind "." name with
  | Some i =>
      if ((0 <? i) && (i <? String.length name - 1))%nat then Some i else None
  | None => None
  end.

Definition path_suffix (name : string) : string :=
  match has_suffix name with
  | Some i => Str.drop i name
  | None => ""
  end.

Definition path_stem (name : string) : string :=
  match has_suffix name with
  | Some i => Str.take i name
  | None => name
  end.

(** ** Classifier: [categorize] *)

Inductive category : Type := photo | video | music | program | other.

Global Instance category_eq_dec : EqDecision category.
Proof. solve_decision. Defined.

Definition category_code (c : category) : nat :=
  match c with photo => 0 | video => 1 | music => 2 | program => 3 | other => 4 end.

Definition category_decode (n : nat) : category :=
  match n with 0 => photo | 1 => video | 2 => music | 3 => program | _ => other end.

Global Instance category_countable : Countable category.
Proof.
  apply (inj_countable' category_code category_decode).
  intros []; reflexivity.
Defined.

Definition PHOTO_EXT : list string :=
  [".jpg"; ".jpeg"; ".png"; ".gif"; ".bmp"; ".thm"; ".tiff"; ".heic";
   ".heif"; ".webp"; ".arw"; ".nef"; ".cr2"].
Definition VIDEO_EXT : list string :=
  [".mp4"; ".mov"; ".avi"; ".mkv"; ".wmv"; ".flv"; ".webm"; ".mpeg";
   ".mpg"; ".m4v"].
Definition MUSIC_EXT : list string :=
  [".mp3"; ".aac"; ".flac"; ".ogg"; ".wav"; ".m4a"; ".wma"].
Definition PROGRAM_EXT : list string :=
  [".exe"; ".msi"; ".apk"; ".deb"; ".rpm"; ".dmg"; ".pkg"; ".app";
   ".bat"; ".sh"; ".ps1"; ".jar"].

Definition CATEGORY_DIR (c : category) : string :=
  match c with
  | photo => "Фото"
  | video => "Видео"
  | music => "Музыка"
  | program => "Программы"
  | other => "Прочее"
  end.

(** [ext in TABLE] *)
Definition ext_in (ext : string) (table : list string) : bool :=
  bool_decide (ext ∈ table).

(** The chain of tests of [categorize] on the lower-cased suffix. *)
Definition category_of_ext (ext : string) : category :=
  if ext_in ext PHOTO_EXT then photo
  else if ext_in ext VIDEO_EXT then video
  else if ext_in ext MUSIC_EXT then music
  else if ext_in ext PROGRAM_EXT then program
  else other.

(** [[
   def categorize(path: Path) -> str:
       ext = path.suffix.lower()
       ...
   ]] *)
Definition categorize (name : string) : category :=
  let ext := Str.lower (path_suffix name) in
  category_of_ext ext.

(** ** DateResolver: [datetime], [strptime], [strftime] *)

Record datetime : Type := mk_datetime {
  dt_year : N; dt_month : N; dt_day : N;
  dt_hour : N; dt_minute : N; dt_second : N
}.

Module Strptime.

(** The regular expression that [datetime.strptime] builds from the
    format ["%Y:%m:%d %H:%M:%S"] is matched with ordered alternatives
    and backtracking; a matcher returns its ways to match a prefix of
    the input, the preferred one first. *)
Definition matcher (A : Type) : Type := string -> list (A * string).

Definition digit_of (c : ascii) : option N :=
  let n := N_of_ascii c in
  if ((48 <=? n) && (n <=? 57))%N then Some (n - 48)%N else None.

(** One digit between [lo] and [hi]: the classes [\d] and [[lo-hi]]. *)
Definition digit (lo hi : N) : matcher N := fun s =>
  match s with
  | String c r =>
      match digit_of c with
      | Some d => if ((lo <=? d) && (d <=? hi))%N then [(d, r)] else []
      | None => []
      end
  | EmptyString => []
  end.

Definition bind {A B} (m : matcher A) (k : A -> matcher B) : matcher B :=
  fun s => concat (map (fun '(a, r) => k a r) (m s)).

Definition ret {A} (a : A) : matcher A := fun s => [(a, s)].

(** Two digits, each from its own class, read as a number. *)
Definition digits2 (lo1 hi1 lo2 hi2 : N) : matcher N :=
  bind (digit lo1 hi1) (fun a =>
  bind (digit lo2 hi2) (fun b => ret (10 * a + b)%N)).

(** [p|q] *)
Definition alt {A} (p q : matcher A) : matcher A := fun s => (p s ++ q s)%list.

(** A literal character. *)
Definition lit (c : ascii) : matcher unit := fun s =>
  match s with
  | String a r => if Ascii.eqb a c then [((), r)] else []
  | EmptyString => []
  end.

(** [\s+], greedy: the longest run first, then the shorter ones. *)
Fixpoint spaces_from (s : string) : list (unit * string) :=
  match s with
  | String c r => if Str.isspace c then (spaces_from r ++ [((), r)])%list else []
  | EmptyString => []
  end.
Definition spaces : matcher unit := spaces_from.

(** [%Y]: [\d\d\d\d] *)
Definition re_Y : matcher N :=
  bind (digit 0 9) (fun a => bind (digit 0 9) (fun b =>
  bind (digit 0 9) (fun c => bind (digit 0 9) (fun d =>
  ret (1000 * a + 100 * b + 10 * c + d)%N)))).
(** [%m]: [1[0-2]|0[1-9]|[1-9]] *)
Definition re_m : matcher N :=
  alt (digits2 1 1 0 2) (alt (digits2 0 0 1 9) (digit 1 9)).
(** [%d]: [3[0-1]|[1-2]\d|0[1-9]|[1-9]| [1-9]] *)
Definition re_d : matcher N :=
  alt (digits2 3 3 0 1) (alt (digits2 1 2 0 9) (alt (digits2 0 0 1 9)
    (alt (digit 1 9) (bind (lit " ") (fun _ => digit 1 9))))).
(** [%H]: [2[0-3]|[0-1]\d|\d] *)
Definition re_H : matcher N :=
  alt (digits2 2 2 0 3) (alt (digits2 0 1 0 9) (digit 0 9)).
(** [%M]: [[0-5]\d|\d] *)
Definition re_M : matcher N := alt (digits2 0 5 0 9) (digit 0 9).
(** [%S]: [6[0-1]|[0-5]\d|\d] *)
Definition re_S : matcher N :=
  alt (digits2 6 6 0 1) (alt (digits2 0 5 0 9) (digit 0 9)).

(** The whole pattern, [%Y:%m:%d\s+%H:%M:%S]. *)
Definition pattern : matcher datetime :=
  bind re_Y (fun y => bind (lit ":") (fun _ =>
  bind re_m (fun m => bind (lit ":") (fun _ =>
  bind re_d (fun d => bind spaces (fun _ =>
  bind re_H (fun h => bind (lit ":") (fun _ =>
  bind re_M (fun mi => bind (lit ":") (fun _ =>
  bind re_S (fun sec => ret (mk_datetime y m d h mi sec)))))))))))).

Definition is_leap (y : N) : bool :=
  ((y mod 4 =? 0) && (negb (y mod 100 =? 0) || (y mod 400 =? 0)))%N.

Definition days_in_month (y m : N) : N :=
  match m with
  | 2 => if is_leap y then 29 else 28
  | 4 | 6 | 9 | 11 => 30
  | _ => 31
  end%N.

(** What the constructors [date(...)] and [datetime(...)] accept. *)
Definition valid (dt : datetime) : bool :=
  ((1 <=? dt_year dt) && (dt_year dt <=? 9999)
   && (1 <=? dt_month dt) && (dt_month dt <=? 12)
   && (1 <=? dt_day dt) && (dt_day dt <=? days_in_month (dt_year dt) (dt_month dt))
   && (dt_hour dt <=? 23) && (dt_minute dt <=? 59) && (dt_second dt <=? 59))%N.

(** [datetime.strptime(s, "%Y:%m:%d %H:%M:%S")]; [None] stands for
    [ValueError]: no match, unconverted data after the first match,
    or field values that no [datetime] has. *)
Definition strptime (s : string) : option datetime :=
  match pattern s with
  | (dt, EmptyString) :: _ => if valid dt then Some dt else None
  | _ => None
  end.

End Strptime.

(** [str(n)] for a non-negative integer, padded with zeros to width [w]. *)
Definition decimal (w : nat) (n : N) : string := Str.zfill w (pretty n).

(** [dt.strftime("%Y%m%d_%H%M%S")] (years are written with four
    digits). *)
Definition strftime (dt : datetime) : string :=
  decimal 4 (dt_year dt) +:+ decimal 2 (dt_month dt) +:+ decimal 2 (dt_day dt)
  +:+ "_" +:+
  decimal 2 (dt_hour dt) +:+ decimal 2 (dt_minute dt) +:+ decimal 2 (dt_second dt).

(** ** The source tree, the destination tree and the log *)

Abbreviation bytes := (list Byte.byte).

(** A path under the source root, [Path(root) / file]. *)
Record src_path : Type := mk_src_path { sp_root : string; sp_name : string }.

Global Instance src_path_eq_dec : EqDecision src_path.
Proof. solve_decision. Defined.

(** A path under the destination root,
    [dest / CATEGORY_DIR[category] / name]. *)
Record dst_path : Type := mk_dst_path {
  dp_root : string; dp_category : category; dp_name : string
}.

(** A value of an EXIF tag as PIL returns it. *)
Inductive exif_value : Type :=
  | ExifStr (s : string)
  | ExifBytes (b : bytes).

(** What [Image.open(path)] and [img._getexif()] do on a file. *)
Inductive exif_read : Type :=
  | ExifRaises                      (* not an image, unreadable, ... *)
  | ExifEmpty                       (* [_getexif()] is [None] or [{}] *)
  | ExifTags (DateTimeOriginal DateTime : option exif_value).

(** One file met by [os.walk(source)], with what the platform does on
    it during the run. *)
Record src_file : Type := mk_src_file {
  f_root : string;          (* [root] of the walk *)
  f_name : string;          (* [file] *)
  f_readable : bool;        (* [path.open("rb")] and [f.read] succeed *)
  f_content : bytes;        (* the bytes of the file *)
  f_mtime : datetime;       (* [datetime.fromtimestamp(stat().st_mtime)] *)
  f_exif : exif_read;
  f_copy_fails : bool       (* [shutil.copy2] to the new path raises *)
}.

Definition f_path (f : src_file) : src_path := mk_src_path (f_root f) (f_name f).

(** The messages of [logging]. *)
Inductive event : Type :=
  | LogStart (source dest : string)
  | LogCategoryDir (key : category) (subdir : string)
  | LogProcessing (src : src_path) (c : category)
  | LogSkipDuplicate (src : src_path)
  | LogExifWarning (src : src_path)
  | LogCopied (src : src_path) (new_path : dst_path)
  | LogCopyError (src : src_path)
  | LogDone.

(** An exception that leaves [organise]. *)
Inductive exn : Type :=
  | OSError (src : src_path)     (* raised by [compute_sha256] *)
  | LoopFuel.                    (* the model of a [while] ran out of steps *)

(** The state of a run: the local [seen_hashes], the category
    directories under the destination root, and the log. *)
Record state : Type := mk_state {
  seen_hashes : gmap category (gset string);
  dest_fs : gmap category (gmap string bytes);
  log : list event
}.

(** [seen_hashes[category]] of a [defaultdict(set)]. *)
Definition seen_of (seen : gmap category (gset string)) (c : category) : gset string :=
  default ∅ (seen !! c).

(** The entries of a category directory. *)
Definition dir_of (fs : gmap category (gmap string bytes)) (c : category) : gmap string bytes :=
  default ∅ (fs !! c).

(** ** PathAllocator: [unique_path] *)

(** [target.exists()] in a directory *)
Definition exists_in (dir : gmap string bytes) (name : string) : bool :=
  bool_decide (is_Some (dir !! name)).

(** [f"{stem}_{counter}{ext}"] *)
Definition numbered (stem ext : string) (counter : N) : string :=
  stem +:+ "_" +:+ pretty counter +:+ ext.

(** The [while] loop of [unique_path], [fuel] iterations at most. *)
Fixpoint unique_path_loop (fuel : nat) (dir : gmap string bytes)
    (stem ext : string) (target : string) (counter : N) : option string :=
  match fuel with
  | O => None
  | S fuel' =>
      if exists_in dir target then
        unique_path_loop fuel' dir stem ext (numbered stem ext counter) (counter + 1)%N
      else Some target
  end.

(** [[
   def unique_path(dest_dir: Path, filename: str) -> Path:
       target = dest_dir / filename
       counter = 1
       stem, ext = target.stem, target.suffix
       while target.exists():
           target = dest_dir / f"{stem}_{counter}{ext}"
           counter += 1
       return target
   ]]
   The loop is run for one step more than the directory has entries. *)
Definition unique_path (dir : gmap string bytes) (filename : string) : option string :=
  let target := filename in
  let counter := 1%N in
  let stem := path_stem target in
  let ext := path_suffix target in
  unique_path_loop (S (size dir)) dir stem ext target counter.

(** The paths that [unique_path] probes, in order. *)
Definition candidate (filename : string) (k : nat) : string :=
  match k with
  | O => filename
  | S _ => numbered (path_stem filename) (path_suffix filename) (N.of_nat k)
  end.

(** ** Organizer: [organise] *)

(** State and exceptions of the run. *)
Definition M (A : Type) : Type := state -> state * (exn + A).

Global Instance M_ret : MRet M := fun A a st => (st, inr a).
Global Instance M_bind : MBind M := fun A B k m st =>
  match m st with
  | (st', inl e) => (st', inl e)
  | (st', inr a) => k a st'
  end.

Definition raise {A} (e : exn) : M A := fun st => (st, inl e).

(** The state with more messages in the log. *)
Definition add_log (st : state) (evs : list event) : state :=
  mk_state (seen_hashes st) (dest_fs st) (log st ++ evs).

Definition logging (ev : event) : M unit := fun st => (add_log st [ev], inr ()).

Definition get_seen (c : category) : M (gset string) := fun st =>
  (st, inr (seen_of (seen_hashes st) c)).

(** [seen_hashes[category].add(file_hash)] *)
Definition add_seen (c : category) (h : string) : M unit := fun st =>
  (mk_state (<[c := {[h]} ∪ seen_of (seen_hashes st) c]> (seen_hashes st))
            (dest_fs st) (log st), inr ()).

(** [seen_hashes = defaultdict(set)] *)
Definition new_seen : M unit := fun st =>
  (mk_state ∅ (dest_fs st) (log st), inr ()).

Definition get_dir (c : category) : M (gmap string bytes) := fun st =>
  (st, inr (dir_of (dest_fs st) c)).

(** [subdir.mkdir(exist_ok=True)] *)
Definition mkdir_fs (c : category) (fs : gmap category (gmap string bytes)) :
    gmap category (gmap string bytes) :=
  match fs !! c with
  | Some _ => fs
  | None => <[c := ∅]> fs
  end.

Definition mkdir (c : category) : M unit := fun st =>
  (mk_state (seen_hashes st) (mkdir_fs c (dest_fs st)) (log st), inr ()).

(** A successful [shutil.copy2(src_path, new_path)]. *)
Definition write_file (c : category) (name : string) (content : bytes) : M unit :=
  fun st =>
  (mk_state (seen_hashes st)
            (<[c := <[name := content]> (dir_of (dest_fs st) c)]> (dest_fs st))
            (log st), inr ()).

Definition lift_option {A} (o : option A) : M A :=
  match o with Some a => mret a | None => raise LoopFuel end.

Section Organise.

(** [hashlib.sha256(content).hexdigest()] *)
Variable sha256 : bytes -> string.
(** [b.decode(errors="ignore")] *)
Variable decode_ignore : bytes -> string.
(** Whether [from PIL import Image, ExifTags] succeeded. *)
Variable pil_installed : bool.

(** [[
   def compute_sha256(path: Path) -> str:
       h = hashlib.sha256()
       with path.open("rb") as f:
           for chunk in iter(lambda: f.read(CHUNK_SIZE), b""):
               h.update(chunk)
       return h.hexdigest()
   ]]
   A file that cannot be opened or read makes it raise. *)
Definition compute_sha256 (f : src_file) : M string :=
  if f_readable f then mret (sha256 (f_content f))
  else raise (OSError (f_path f)).

(** Truth value of [exif_data.get(tag)]. *)
Definition truthy (v : option exif_value) : bool :=
  match v with
  | Some (ExifStr s) => negb (bool_decide (s = ""))
  | Some (ExifBytes b) => negb (bool_decide (b = []))
  | None => false
  end.

(** [[
   def get_photo_datetime(path: Path) -> datetime | None:
       if Image is None:
           return None
       try:
           with Image.open(path) as img:
               exif = img._getexif()
               if not exif:
                   return None
               exif_data = {ExifTags.TAGS.get(k, k): v for k, v in exif.items()}
               dt_bytes = exif_data.get("DateTimeOriginal") or exif_data.get("DateTime")
               if dt_bytes:
                   if isinstance(dt_bytes, bytes):
                       dt_bytes = dt_bytes.decode(errors="ignore")
                   try:
                       return datetime.strptime(dt_bytes, "%Y:%m:%d %H:%M:%S")
                   except ValueError:
                       return None
       except Exception as e:
           logging.warning(...)
       return None
   ]] *)
Definition get_photo_datetime (f : src_file) : M (option datetime) :=
  if negb pil_installed then mret None
  else
    match f_exif f with
    | ExifRaises => logging (LogExifWarning (f_path f)) ;; mret None
    | ExifEmpty => mret None
    | ExifTags dto dt =>
        let dt_bytes := if truthy dto then dto else dt in
        if truthy dt_bytes then
          match dt_bytes with
          | Some (ExifStr s) => mret (Strptime.strptime s)
          | Some (ExifBytes b) => mret (Strptime.strptime (decode_ignore b))
          | None => mret None
          end
        else mret None
    end.

Definition is_media (c : category) : bool :=
  match c with photo | video => true | _ => false end.

(** Lines 188-198 of [organise]: the name of the copy. *)
Definition new_name_of (f : src_file) (c : category) : M string :=
  if is_media c then
    dt ← (if bool_decide (c = photo) then get_photo_datetime f else mret None) ;
    let dt := default (f_mtime f) dt in
    let date_part := strftime dt in
    let old_stem := sanitized_name (path_stem (f_name f)) in
    mret (date_part +:+ "_" +:+ old_stem +:+ Str.lower (path_suffix (f_name f)))
  else mret (f_name f).

(** The body of the loop over the files, lines 177-206. *)
Definition process_file (dest : string) (f : src_file) : M unit :=
  let src := f_path f in
  let c := categorize (f_name f) in
  logging (LogProcessing src c) ;;
  file_hash ← compute_sha256 f ;
  seen ← get_seen c ;
  if bool_decide (file_hash ∈ seen) then
    logging (LogSkipDuplicate src)                    (* continue *)
  else
    add_seen c file_hash ;;
    new_name ← new_name_of f c ;
    dir ← get_dir c ;
    new_path ← lift_option (unique_path dir new_name) ;
    dir ← get_dir c ;
    if exists_in dir new_path then mret ()
    else if f_copy_fails f then logging (LogCopyError src)
    else
      write_file c new_path (f_content f) ;;
      logging (LogCopied src (mk_dst_path dest c new_path)).

(** [for root, _, files in os.walk(source): for file in files: ...] *)
Fixpoint organise_loop (dest : string) (files : list src_file) : M unit :=
  match files with
  | [] => mret ()
  | f :: rest => process_file dest f ;; organise_loop dest rest
  end.

Definition all_categories : list category := [photo; video; music; program; other].

Fixpoint make_dirs (dest : string) (cs : list category) : M unit :=
  match cs with
  | [] => mret ()
  | c :: rest =>
      mkdir c ;;
      logging (LogCategoryDir c (dest +:+ "/" +:+ CATEGORY_DIR c)) ;;
      make_dirs dest rest
  end.

(** [organise(source, dest)], where [files] is what [os.walk(source)]
    yields, in its order. *)
Definition organise (source dest : string) (files : list src_file) : M unit :=
  logging (LogStart source dest) ;;
  make_dirs dest all_categories ;;
  new_seen ;;
  organise_loop dest files ;;
  logging LogDone.

(** The state in which the loop over the files starts. *)
Definition start_state (source dest : string) (st : state) : state :=
  ((logging (LogStart source dest) ;; make_dirs dest all_categories ;; new_seen) st).1.

(** A run from a destination tree [fs]. *)
Definition run (source dest : string) (files : list src_file)
    (fs : gmap category (gmap string bytes)) : state * (exn + unit) :=
  organise source dest files (mk_state ∅ fs []).

End Organise.

(** ** Inputs of the examples *)

Module Ex.

(** A stand-in for the digest in the examples: the bytes themselves,
  read as text.  The properties hold for every hash function. *)
Definition digest (b : bytes) : string := String.string_of_list_byte b.

Definition decode (b : bytes) : string := String.string_of_list_byte b.

Definition mtime : datetime := mk_datetime 2020 1 15 9 0 0.

Definition hello : bytes := String.list_byte_of_string "hello".

(** A readable file without EXIF data whose copy succeeds. *)
Definition plain (root name : string) (content : bytes) : src_file :=
mk_src_file root name true content mtime ExifEmpty false.

(** Two files of category [other] with the same bytes; the copy of the
  first one fails. *)
Definition a_failing : src_file :=
mk_src_file "/src" "a.txt" true hello mtime ExifEmpty true.
Definition b_same : src_file := plain "/src" "b.txt" hello.

(** A file that cannot be read, followed by one that can. *)
Definition u_unreadable : src_file :=
mk_src_file "/src" "u.txt" false [] mtime ExifEmpty false.
Definition v_readable : src_file := plain "/src" "v.txt" hello.

(** Two photos with the same bytes, and a song with those bytes too. *)
Definition p1 : src_file := plain "/src" "x.jpg" hello.
Definition p2 : src_file := plain "/src/sub" "y.jpg" hello.
Definition song : src_file := plain "/src" "x.mp3" hello.

(** The photo of the rename example. *)
Definition my_photo : src_file :=
mk_src_file "/src" "my photo.jpg" true hello mtime
  (ExifTags (Some (ExifStr "2021:05:02 14:30:00")) None) false.

(** A photo whose stem is one space. *)
Definition blank_photo : src_file := plain "/src" " .jpg" hello.

(** A directory where [a.txt] and [a_1.txt] exist. *)
Definition taken : gmap string bytes := <["a.txt" := hello]> (<["a_1.txt" := []]> ∅).

(** A state left by an earlier run, over an empty destination. *)
Definition used : state :=
mk_state (<[photo := {[ "old" ]}]> ∅) (<[photo := ∅]> ∅) [LogDone].

End Ex.

(** ** Observations on a run *)


(** The directory of category [c] holds [content] under [name]. *)
Definition holds (st : state) (c : category) (name : string) (content : bytes) : Prop :=
  dir_of (dest_fs st) c !! name = Some content.

(** A destination tree whose category directories are empty or absent. *)
Definition fresh (fs : gmap category (gmap string bytes)) : Prop :=
  ∀ c : category, dir_of fs c = ∅.


(** Two states with the same hash sets and the same category
    directories. *)
Definition same_core (st1 st2 : state) : Prop :=
  seen_hashes st1 = seen_hashes st2
  ∧ ∀ c : category, dir_of (dest_fs st1) c = dir_of (dest_fs st2) c.

(** What one turn of the loop does, case by case: the file cannot be
    read, its hash was seen in its category, or it is new. *)
Inductive step_case (sha256 decode_ignore : bytes → string) (pil_installed : bool)
    (dest : string) (f : src_file) (st : state) : Prop :=
  | step_unreadable :
      f_readable f = false →
      process_file sha256 decode_ignore pil_installed dest f st
      = (add_log st [LogProcessing (f_path f) (categorize (f_name f))],
         inl (OSError (f_path f))) →
      step_case sha256 decode_ignore pil_installed dest f st
  | step_duplicate :
      f_readable f = true →
      sha256 (f_content f) ∈ seen_of (seen_hashes st) (categorize (f_name f)) →
      process_file sha256 decode_ignore pil_installed dest f st
      = (add_log st [LogProcessing (f_path f) (categorize (f_name f));
                     LogSkipDuplicate (f_path f)], inr ()) →
      step_case sha256 decode_ignore pil_installed dest f st
  | step_new (warn : list event) (name p : string) :
      f_readable f = true →
      sha256 (f_content f) ∉ seen_of (seen_hashes st) (categorize (f_name f)) →
      (warn = [] ∨ warn = [LogExifWarning (f_path f)]) →
      (∀ st', new_name_of decode_ignore pil_installed f (categorize (f_name f)) st'
              = (add_log st' warn, inr name)) →
      unique_path (dir_of (dest_fs st) (categorize (f_name f))) name = Some p →
      dir_of (dest_fs st) (categorize (f_name f)) !! p = None →
      process_file sha256 decode_ignore pil_installed dest f st
      = (let c := categorize (f_name f) in
         mk_state
           (<[c := {[sha256 (f_content f)]} ∪ seen_of (seen_hashes st) c]> (seen_hashes st))
           (if f_copy_fails f then dest_fs st
            else <[c := <[p := f_content f]> (dir_of (dest_fs st) c)]> (dest_fs st))
           (log st ++ [LogProcessing (f_path f) c] ++ warn ++
              [if f_copy_fails f then LogCopyError (f_path f)
               else LogCopied (f_path f) (mk_dst_path dest c p)]),
         inr ()) →
      step_case sha256 decode_ignore pil_installed dest f st.

(** ** Predicates on strings *)

Module StrP.

(** Two neighbouring characters of [s] both satisfy [p]. *)
Fixpoint adjacent (p : ascii → bool) (s : string) : bool :=
  match s with
  | String a (String b _ as r) => p a && p b || adjacent p r
  | _ => false
  end.

(** [s] without the characters that satisfy [p]. *)
Fixpoint remove (p : ascii → bool) (s : string) : string :=
  match s with
  | EmptyString => EmptyString
  | String c r => if p c then remove p r else String c (remove p r)
  end.

Definition is_dot (c : ascii) : bool := Ascii.eqb c ".".

(** White space or underscore: what [sanitized_name] may drop or write. *)
Definition is_filler (c : ascii) : bool := Str.isspace c || Str.is_underscore c.

(** A string that [sanitized_name] has nothing to do on. *)
Definition clean (s : string) : Prop :=
  Str.any Str.isspace s = false ∧ adjacent Str.is_underscore s = false.

End StrP.

(** ** Dates as text *)

(** [dt.strftime("%Y:%m:%d %H:%M:%S")]: the date written in the format
    that [get_photo_datetime] parses, which is how the EXIF tags hold
    it. *)
Definition exif_text (dt : datetime) : string :=
  decimal 4 (dt_year dt) +:+ ":" +:+ decimal 2 (dt_month dt) +:+ ":" +:+
  decimal 2 (dt_day dt) +:+ " " +:+
  decimal 2 (dt_hour dt) +:+ ":" +:+ decimal 2 (dt_minute dt) +:+ ":" +:+
  decimal 2 (dt_second dt).

(** A decimal digit. *)
Definition is_digit (c : ascii) : bool :=
  match Strptime.digit_of c with Some _ => true | None => false end.

(** What the digits of the numbers below 100 and below 10000 are. *)
Definition two_digits_ok (n : N) : bool :=
  String.eqb (decimal 2 n)
    (String (pretty_N_char (n / 10)) (String (pretty_N_char (n mod 10)) ""))
  && (n / 10 <? 10)%N && (n mod 10 <? 10)%N && (10 * (n / 10) + n mod 10 =? n)%N.

Definition four_digits_ok (y : N) : bool :=
  String.eqb (decimal 4 y)
    (String (pretty_N_char (y / 1000)) (String (pretty_N_char (y / 100 mod 10))
       (String (pretty_N_char (y / 10 mod 10)) (String (pretty_N_char (y mod 10)) ""))))
  && (y / 1000 <? 10)%N && (y / 100 mod 10 <? 10)%N && (y / 10 mod 10 <? 10)%N
  && (y mod 10 <? 10)%N
  && (1000 * (y / 1000) + 100 * (y / 100 mod 10) + 10 * (y / 10 mod 10) + y mod 10 =? y)%N.

(** A character of a date part: a digit or the underscore. *)
Definition is_stamp_char (c : ascii) : bool := is_digit c || Str.is_underscore c.

(** Line 194 of [organise]: the name of a photo or video dated [dt]. *)
Definition media_name (dt : datetime) (f : src_file) : string :=
  strftime dt +:+ "_" +:+ sanitized_name (path_stem (f_name f))
  +:+ Str.lower (path_suffix (f_name f)).

(** Lines 123-124 of [get_photo_datetime]: the text of a tag, decoded
    when PIL returned bytes. *)
Definition tag_text (decode_ignore : bytes → string) (v : exif_value) : string :=
  match v with
  | ExifStr s => s
  | ExifBytes b => decode_ignore b
  end.

(** Line 121: [DateTimeOriginal or DateTime]. *)
Definition chosen_tag (dto dtag : option exif_value) : option exif_value :=
  if truthy dto then dto else dtag.




(** ** Hasher: the file is read by chunks *)

(** [CHUNK_SIZE = 1 << 20] *)
Definition CHUNK_SIZE : nat := Nat.shiftl 1 20.

Section Chunks.

(** A hash object of [hashlib]: [hashlib.sha256()], [h.update(chunk)]
    and [h.hexdigest()]. *)
Variable H : Type.
Variable h_new : H.
Variable h_update : H → bytes → H.
Variable h_hexdigest : H → string.

(** [f.read(n)] on a file whose unread bytes are [rest]: the next [n]
    bytes, fewer at the end of the file, and what is left to read. *)
Definition file_read (n : nat) (rest : bytes) : bytes * bytes :=
  (take n rest, drop n rest).

(** [for chunk in iter(lambda: f.read(n), b""): h.update(chunk)], [fuel]
    reads at most. *)
Fixpoint hash_chunks (fuel : nat) (n : nat) (h : H) (rest : bytes) : option H :=
  match fuel with
  | O => None
  | S fuel' =>
      let '(chunk, rest') := file_read n rest in
      match chunk with
      | [] => Some h
      | _ :: _ => hash_chunks fuel' n (h_update h chunk) rest'
      end
  end.

(** The body of [compute_sha256] on a file that can be read, with
    chunks of [n] bytes; one read more than the file has bytes. *)
Definition sha256_by_chunks (n : nat) (content : bytes) : option string :=
  h_hexdigest <$> hash_chunks (S (length content)) n h_new content.

End Chunks.

(** ** The order of dates *)



(** * Properties *)

(** ** Strings *)

Lemma str_app_cons (a : ascii) (s t : string) :
  String a s +:+ t = String a (s +:+ t).
Proof. reflexivity. Qed.

Lemma str_app_nil_l (t : string) : "" +:+ t = t.
Proof. reflexivity. Qed.

Lemma str_app_length (s t : string) :
  String.length (s +:+ t) = String.length s + String.length t.
Proof. induction s as [|a s IH]; [reflexivity|]. rewrite str_app_cons. simpl. by rewrite IH. Qed.

(** Cancellation of a common ending. *)
Lemma str_app_inv_tail (s t u : string) : s +:+ u = t +:+ u → s = t.
Proof.
  revert t. induction s as [|a s IH]; intros [|b t] H.
  - reflexivity.
  - apply (f_equal String.length) in H. rewrite str_app_nil_l, str_app_cons in H.
    simpl in H. rewrite str_app_length in H. lia.
  - apply (f_equal String.length) in H. rewrite str_app_nil_l, str_app_cons in H.
    simpl in H. rewrite str_app_length in H. lia.
  - rewrite !str_app_cons in H. injection H as -> H. f_equal. by apply IH.
Qed.

Lemma take_drop_str (i : nat) (s : string) : Str.take i s +:+ Str.drop i s = s.
Proof.
  revert s. induction i as [|i IH]; intros [|a s]; try reflexivity.
  simpl. rewrite str_app_cons. by rewrite IH.
Qed.

(** A name is its stem followed by its suffix. *)
Lemma stem_suffix (name : string) : path_stem name +:+ path_suffix name = name.
Proof.
  unfold path_stem, path_suffix. destruct (has_suffix name) as [i|].
  - apply take_drop_str.
  - clear. induction name as [|a s IH]; [reflexivity|]. rewrite str_app_cons. by rewrite IH.
Qed.

Section Classes.

(** A character class that the underscore does not belong to. *)
Variable p : ascii → bool.
Hypothesis p_underscore : p "_" = false.

Lemma sub_runs_none (b : bool) (s : string) :
  Str.any p (Str.sub_runs p b s) = false.
Proof.
  revert b. induction s as [|c s IH]; intros b; simpl; [reflexivity|].
  destruct (p c) eqn:Hc.
  - destruct b; simpl; [apply IH|]. by rewrite p_underscore, IH.
  - simpl. by rewrite Hc, IH.
Qed.

Lemma sub_runs_id (b : bool) (s : string) :
  Str.any p s = false → Str.sub_runs p b s = s.
Proof.
  revert b. induction s as [|c s IH]; intros b H; simpl in *; [reflexivity|].
  apply orb_false_iff in H as [Hc Hs]. rewrite Hc. f_equal. by apply IH.
Qed.

Lemma lstrip_id (s : string) : Str.any Str.isspace s = false → Str.lstrip s = s.
Proof. destruct s as [|c s]; simpl; [done|]. intros [-> _]%orb_false_iff. done. Qed.

End Classes.

Lemma rstrip_id (s : string) : Str.any Str.isspace s = false → Str.rstrip s = s.
Proof.
  induction s as [|c s IH]; simpl; [done|].
  intros [Hc Hs]%orb_false_iff. rewrite IH by done. rewrite Hc. by destruct s.
Qed.

Lemma strip_id (s : string) : Str.any Str.isspace s = false → Str.strip s = s.
Proof.
  intros H. unfold Str.strip. rewrite lstrip_id by done. by apply rstrip_id.
Qed.

(** Replacing runs of underscores keeps a string free of white space. *)
Lemma sub_underscores_no_space (b : bool) (s : string) :
  Str.any Str.isspace s = false →
  Str.any Str.isspace (Str.sub_runs Str.is_underscore b s) = false.
Proof.
  revert b. induction s as [|c s IH]; intros b H; simpl in *; [done|].
  apply orb_false_iff in H as [Hc Hs].
  destruct (Str.is_underscore c) eqn:Hu.
  - destruct b; simpl; [auto|].
    change (Str.isspace "_") with false. simpl. auto.
  - simpl. rewrite Hc. simpl. auto.
Qed.

(** Replacing runs of underscores a second time changes nothing. *)
Lemma sub_underscores_twice (b : bool) (s : string) :
  Str.sub_runs Str.is_underscore b (Str.sub_runs Str.is_underscore b s)
  = Str.sub_runs Str.is_underscore b s.
Proof.
  revert b. induction s as [|c s IH]; intros b; simpl; [done|].
  destruct (Str.is_underscore c) eqn:Hu.
  - destruct b; [apply IH|]. simpl. f_equal. apply IH.
  - simpl. rewrite Hu. f_equal. apply IH.
Qed.

Lemma sanitized_name_no_space (x : string) :
  Str.any Str.isspace (sanitized_name x) = false.
Proof.
  unfold sanitized_name, Str.re_sub_plus.
  apply sub_underscores_no_space, sub_runs_none. reflexivity.
Qed.

Lemma lstrip_all_space (s : string) :
  Str.all Str.isspace s = true → Str.lstrip s = "".
Proof.
  induction s as [|c s IH]; simpl; [done|].
  intros [-> Hs]%andb_true_iff. auto.
Qed.

(** C7. Sanitation is idempotent: for every string [x],
    [sanitized_name (sanitized_name x) = sanitized_name x], where
    [sanitized_name] strips the white space at both ends, replaces every
    run of white space by one underscore and then every run of
    underscores by one underscore. *)
Theorem sanitized_name_idempotent (x : string) :
  sanitized_name (sanitized_name x) = sanitized_name x.
Proof.
  pose proof (sanitized_name_no_space x) as Hx.
  unfold sanitized_name at 1. unfold Str.re_sub_plus.
  rewrite strip_id by done.
  rewrite (sub_runs_id Str.isspace) by done.
  unfold sanitized_name, Str.re_sub_plus. apply sub_underscores_twice.
Qed.

(** ** Classifier *)

(** C8. [categorize] is a total function of the file name that depends
    only on the lower-cased extension: it is [category_of_ext] of the
    lower-cased suffix, two names with the same lower-cased suffix get
    the same category, a name without extension is [other], and so is
    a name whose lower-cased extension is in none of the four tables. *)
Theorem categorize_total_by_extension (name : string) :
  categorize name = category_of_ext (Str.lower (path_suffix name))
  ∧ (∀ name' : string,
       Str.lower (path_suffix name') = Str.lower (path_suffix name) →
       categorize name' = categorize name)
  ∧ (path_suffix name = "" → categorize name = other)
  ∧ (Str.lower (path_suffix name) ∉ (PHOTO_EXT ++ VIDEO_EXT ++ MUSIC_EXT ++ PROGRAM_EXT)%list →
     categorize name = other).
Proof.
  split; [reflexivity|]. split; [|split].
  - intros name' H. unfold categorize. by rewrite H.
  - intros H. unfold categorize. rewrite H. reflexivity.
  - intros H. unfold categorize, category_of_ext, ext_in.
    rewrite !not_elem_of_app in H. destruct H as (H1 & H2 & H3 & H4).
    rewrite !bool_decide_eq_false_2 by done. reflexivity.
Qed.

Lemma categorize_total_by_extension_witness :
  categorize "README" = other ∧ categorize "notes.txt" = other
  ∧ categorize "IMG_1.JPG" = categorize "img_1.jpg".
Proof.
  destruct (categorize_total_by_extension "README") as (_ & _ & H1 & _).
  destruct (categorize_total_by_extension "notes.txt") as (_ & _ & _ & H2).
  destruct (categorize_total_by_extension "img_1.jpg") as (_ & H3 & _ & _).
  split; [apply H1; reflexivity|].
  split; [apply H2; apply (bool_decide_unpack _); vm_compute; exact I|].
  apply H3. reflexivity.
Defined.

(** ** PathAllocator *)

Lemma numbered_inj (stem ext : string) : Inj (=) (=) (numbered stem ext).
Proof.
  intros a b H. unfold numbered in H.
  apply (inj (String.app stem)) in H. rewrite !str_app_cons, !str_app_nil_l in H.
  injection H as H. apply str_app_inv_tail in H. by apply (inj pretty) in H.
Qed.

Lemma numbered_fresh (filename : string) (n : N) :
  numbered (path_stem filename) (path_suffix filename) n ≠ filename.
Proof.
  intros H. rewrite <- (stem_suffix filename) in H at 3. unfold numbered in H.
  apply (inj (String.app _)) in H.
  apply (f_equal String.length) in H. rewrite str_app_cons, str_app_nil_l in H.
  simpl in H. rewrite str_app_length in H. lia.
Qed.

(** The probed paths are pairwise different. *)
Lemma candidate_inj (filename : string) : Inj (=) (=) (candidate filename).
Proof.
  intros [|i] [|j] H; simpl in H.
  - reflexivity.
  - symmetry in H. by apply numbered_fresh in H.
  - by apply numbered_fresh in H.
  - apply numbered_inj in H. lia.
Qed.

(** A directory of [n] entries leaves one of the first [n + 1] probed
    paths free. *)
Lemma candidate_free (dir : gmap string bytes) (filename : string) :
  ∃ m : nat, m ≤ size dir ∧ exists_in dir (candidate filename m) = false.
Proof.
  set (ks := seq 0 (S (size dir))).
  destruct (decide (Exists (λ m, exists_in dir (candidate filename m) = false) ks))
    as [Hex|Hall].
  - apply Exists_exists in Hex as (m & Hm & Hfree).
    apply elem_of_seq in Hm. exists m. split; [lia|done].
  - exfalso. apply not_Exists_Forall in Hall; [|intros m; apply _].
    assert (Hsub : list_to_set (candidate filename <$> ks) ⊆ dom dir).
    { intros x Hx. apply elem_of_list_to_set, list_elem_of_fmap in Hx
        as (m & -> & Hm).
      rewrite Forall_forall in Hall. specialize (Hall m Hm). simpl in Hall.
      apply elem_of_dom. unfold exists_in in Hall.
      destruct (decide (is_Some (dir !! candidate filename m))) as [|Hn]; [done|].
      by rewrite bool_decide_eq_false_2 in Hall. }
    apply subseteq_size in Hsub. rewrite size_dom in Hsub.
    rewrite size_list_to_set in Hsub.
    + rewrite length_fmap in Hsub. unfold ks in Hsub. rewrite length_seq in Hsub. lia.
    + pose proof (candidate_inj filename). apply NoDup_fmap_2; [done|apply NoDup_seq].
Qed.

(** The loop started at the [k]-th probed path stops at the first free
    one, if one lies within reach of the fuel. *)
Lemma unique_path_loop_first (dir : gmap string bytes) (filename : string)
    (fuel k m : nat) :
  (∀ j, j < k → exists_in dir (candidate filename j) = true) →
  k ≤ m → m < k + fuel → exists_in dir (candidate filename m) = false →
  ∃ r : nat,
    unique_path_loop fuel dir (path_stem filename) (path_suffix filename)
      (candidate filename k) (N.of_nat (S k)) = Some (candidate filename r)
    ∧ r ≤ m
    ∧ exists_in dir (candidate filename r) = false
    ∧ ∀ j, j < r → exists_in dir (candidate filename j) = true.
Proof.
  revert k. induction fuel as [|fuel IH]; intros k Hbelow Hkm Hm Hfree; [lia|].
  simpl. destruct (exists_in dir (candidate filename k)) eqn:Hk.
  - assert (k ≠ m) by (intros ->; congruence).
    replace (N.of_nat (S k) + 1)%N with (N.of_nat (S (S k))) by lia.
    change (numbered (path_stem filename) (path_suffix filename) (N.of_nat (S k)))
      with (candidate filename (S k)).
    apply IH; [|lia|lia|done].
    intros j Hj. destruct (decide (j = k)) as [->|]; [done|]. apply Hbelow. lia.
  - exists k. split; [done|]. split; [done|]. split; done.
Qed.

(** The loop of [unique_path] ends within its fuel, at the first probed
    path that is free. *)
Lemma unique_path_finds_first (dir : gmap string bytes) (filename : string) :
  ∃ r : nat,
    unique_path dir filename = Some (candidate filename r)
    ∧ r ≤ size dir
    ∧ exists_in dir (candidate filename r) = false
    ∧ (∀ j, j < r → exists_in dir (candidate filename j) = true)
    ∧ (∀ fuel, size dir < fuel →
         unique_path_loop fuel dir (path_stem filename) (path_suffix filename)
           filename 1%N = Some (candidate filename r)).
Proof.
  destruct (candidate_free dir filename) as (m & Hm & Hfree).
  destruct (unique_path_loop_first dir filename (S (size dir)) 0 m)
    as (r & Hr & Hrm & Hrfree & Hbelow); [lia|lia|lia|done|].
  exists r. split; [exact Hr|]. split; [lia|]. split; [done|]. split; [done|].
  intros fuel Hfuel.
  destruct (unique_path_loop_first dir filename fuel 0 r)
    as (r' & Hr' & Hle & Hfree' & Hbelow'); [lia|lia|lia|done|].
  assert (r' = r) as ->; [|exact Hr'].
  destruct (decide (r' = r)) as [|Hne]; [done|].
  assert (r' < r) as Hlt by lia. apply Hbelow in Hlt. congruence.
Qed.


(** ** Organizer: one file *)

Lemma add_log_nil (st : state) : add_log st [] = st.
Proof. destruct st. unfold add_log. simpl. by rewrite app_nil_r. Qed.

Lemma add_log_add_log (st : state) (l1 l2 : list event) :
  add_log (add_log st l1) l2 = add_log st (l1 ++ l2).
Proof. unfold add_log. simpl. by rewrite app_assoc. Qed.

Lemma exists_in_false (dir : gmap string bytes) (name : string) :
  exists_in dir name = false ↔ dir !! name = None.
Proof.
  unfold exists_in. rewrite bool_decide_eq_false, <- eq_None_not_Some. done.
Qed.

Section OrganiseProperties.

Variable sha256 : bytes → string.
Variable decode_ignore : bytes → string.
Variable pil_installed : bool.

Local Abbreviation photo_dt := (get_photo_datetime decode_ignore pil_installed).
Local Abbreviation name_of := (new_name_of decode_ignore pil_installed).
Local Abbreviation step := (process_file sha256 decode_ignore pil_installed).
Local Abbreviation loop := (organise_loop sha256 decode_ignore pil_installed).
Local Abbreviation organise_run := (organise sha256 decode_ignore pil_installed).

(** [get_photo_datetime] only adds a warning to the log, and neither
    the warning nor the result depends on the state. *)
Lemma get_photo_datetime_run (f : src_file) :
  ∃ (warn : list event) (r : option datetime),
    (warn = [] ∨ warn = [LogExifWarning (f_path f)])
    ∧ ∀ st, photo_dt f st = (add_log st warn, inr r).
Proof.
  unfold get_photo_datetime.
  destruct pil_installed; simpl.
  - destruct (f_exif f) as [| |dto dt].
    + exists [LogExifWarning (f_path f)], None. split; [by right|]. done.
    + exists [], None. split; [by left|]. intros st. by rewrite add_log_nil.
    + destruct (truthy (if truthy dto then dto else dt));
        [destruct (if truthy dto then dto else dt) as [[s|b]|]|];
        eexists [], _; (split; [by left|]); intros st; by rewrite add_log_nil.
  - exists [], None. split; [by left|]. intros st. by rewrite add_log_nil.
Qed.

Lemma new_name_of_run (f : src_file) (c : category) :
  ∃ (warn : list event) (name : string),
    (warn = [] ∨ warn = [LogExifWarning (f_path f)])
    ∧ ∀ st, name_of f c st = (add_log st warn, inr name).
Proof.
  unfold new_name_of. destruct (is_media c).
  - destruct (bool_decide (c = photo)).
    + destruct (get_photo_datetime_run f) as (warn & r & Hw & Hrun).
      exists warn. eexists. split; [done|]. intros st.
      unfold mbind, M_bind. rewrite Hrun. reflexivity.
    + exists []. eexists. split; [by left|]. intros st.
      unfold mbind, M_bind, mret, M_ret. by rewrite add_log_nil.
  - exists [], (f_name f). split; [by left|]. intros st.
    unfold mret, M_ret. by rewrite add_log_nil.
Qed.

Lemma process_file_cases (dest : string) (f : src_file) (st : state) :
  step_case sha256 decode_ignore pil_installed dest f st.
Proof.
  destruct (f_readable f) eqn:Hread.
  - destruct (decide (sha256 (f_content f)
                      ∈ seen_of (seen_hashes st) (categorize (f_name f)))) as [Hin|Hnin].
    + apply step_duplicate; [done..|].
      unfold process_file, compute_sha256. rewrite Hread.
      unfold mbind, M_bind, mret, M_ret, logging, get_seen. simpl.
      rewrite bool_decide_eq_true_2 by done. by rewrite add_log_add_log.
    + destruct (new_name_of_run f (categorize (f_name f))) as (warn & name & Hw & Hname).
      destruct (unique_path_finds_first (dir_of (dest_fs st) (categorize (f_name f))) name)
        as (r & Hr & _ & Hfree & _).
      apply exists_in_false in Hfree.
      apply (step_new _ _ _ dest f st warn name (candidate name r)); [done..|].
      unfold process_file, compute_sha256. rewrite Hread.
      unfold mbind, M_bind, mret, M_ret, logging, get_seen, add_seen, get_dir. simpl.
      rewrite bool_decide_eq_false_2 by done. simpl.
      rewrite Hname. simpl. rewrite Hr. simpl.
      assert (exists_in (dir_of (dest_fs st) (categorize (f_name f))) (candidate name r) = false)
        as -> by by apply exists_in_false.
      destruct (f_copy_fails f); simpl; unfold add_log; simpl;
        rewrite <- !app_assoc; reflexivity.
  - apply step_unreadable; [done|].
    unfold process_file, compute_sha256. rewrite Hread. reflexivity.
Qed.

(** *** What a turn of the loop does to the observables *)

Lemma seen_of_insert (seen : gmap category (gset string)) (c c' : category)
    (X : gset string) :
  seen_of (<[c := X]> seen) c' = if decide (c = c') then X else seen_of seen c'.
Proof.
  unfold seen_of. destruct (decide (c = c')) as [->|Hne].
  - by rewrite lookup_insert_eq.
  - by rewrite lookup_insert_ne.
Qed.

Lemma dir_of_insert (fs : gmap category (gmap string bytes)) (c c' : category)
    (d : gmap string bytes) :
  dir_of (<[c := d]> fs) c' = if decide (c = c') then d else dir_of fs c'.
Proof.
  unfold dir_of. destruct (decide (c = c')) as [->|Hne].
  - by rewrite lookup_insert_eq.
  - by rewrite lookup_insert_ne.
Qed.

Lemma step_seen_mono (dest : string) (f : src_file) (st : state)
    (c : category) (h : string) :
  h ∈ seen_of (seen_hashes st) c →
  h ∈ seen_of (seen_hashes (step dest f st).1) c.
Proof.
  intros Hin. destruct (process_file_cases dest f st) as [? ->|? ? ->|? ? ? ? ? ? ? ? ? ->];
    simpl; try done.
  rewrite seen_of_insert. case_decide; [subst; apply elem_of_union; by right|done].
Qed.



(** A turn fails exactly on a file that cannot be read. *)
Lemma step_result (dest : string) (f : src_file) (st : state) :
  (step dest f st).2
  = if f_readable f then inr () else inl (OSError (f_path f)).
Proof.
  destruct (process_file_cases dest f st) as [-> -> | -> ? -> | ? ? ? -> ? ? ? ? ? ->]; done.
Qed.




(** What a category directory holds stays in it. *)
Lemma step_holds_mono (dest : string) (f : src_file) (st : state)
    (c : category) (name : string) (content : bytes) :
  holds st c name content → holds (step dest f st).1 c name content.
Proof.
  unfold holds. intros Hin.
  destruct (process_file_cases dest f st)
    as [? ->|? ? ->|warn name' q ? ? Hw ? ? Hq ->]; simpl; try done.
  destruct (f_copy_fails f); [done|].
  rewrite dir_of_insert. case_decide as Hc; [subst c|done].
  rewrite lookup_insert_ne; [done|]. intros ->. congruence.
Qed.

(** *** The loop *)

Lemma loop_cons (dest : string) (f : src_file) (rest : list src_file) (st : state) :
  loop dest (f :: rest) st
  = match step dest f st with
    | (st', inl e) => (st', inl e)
    | (st', inr _) => loop dest rest st'
    end.
Proof. reflexivity. Qed.





Lemma loop_holds_mono (dest : string) (files : list src_file) (st : state)
    (c : category) (name : string) (content : bytes) :
  holds st c name content → holds (loop dest files st).1 c name content.
Proof.
  revert st. induction files as [|f rest IH]; intros st Hin; [done|].
  rewrite loop_cons. pose proof (step_holds_mono dest f st c name content Hin) as Hstep.
  destruct (step dest f st) as [st' [e|[]]]; [done|]. by apply IH.
Qed.


(** *** The whole of [organise] *)

Lemma organise_eq (source dest : string) (files : list src_file) (st : state) :
  organise_run source dest files st
  = match loop dest files (start_state source dest st) with
    | (st', inl e) => (st', inl e)
    | (st', inr _) => (add_log st' [LogDone], inr ())
    end.
Proof. reflexivity. Qed.

Lemma dir_of_mkdir_fs (c c' : category) (fs : gmap category (gmap string bytes)) :
  dir_of (mkdir_fs c fs) c' = dir_of fs c'.
Proof.
  unfold mkdir_fs. destruct (fs !! c) eqn:Hc; [done|].
  rewrite dir_of_insert. case_decide; [subst|done]. unfold dir_of. by rewrite Hc.
Qed.


Lemma start_state_dir (source dest : string) (st : state) (c : category) :
  dir_of (dest_fs (start_state source dest st)) c = dir_of (dest_fs st) c.
Proof.
  unfold start_state, all_categories, make_dirs, mbind, M_bind, logging, mkdir,
    new_seen. simpl. by rewrite !dir_of_mkdir_fs.
Qed.

Lemma start_state_copied (source dest : string) (st : state)
    (sp : src_path) (p : dst_path) :
  LogCopied sp p ∈ log (start_state source dest st) → LogCopied sp p ∈ log st.
Proof.
  unfold start_state, all_categories, make_dirs, mbind, M_bind, logging, mkdir,
    new_seen. simpl. rewrite !elem_of_app, !list_elem_of_singleton.
  intros [[[[[[?|?]|?]|?]|?]|?]|?]; done.
Qed.

Lemma organise_copied (source dest : string) (files : list src_file) (st : state)
    (sp : src_path) (p : dst_path) :
  LogCopied sp p ∈ log (organise_run source dest files st).1
  ↔ LogCopied sp p ∈ log (loop dest files (start_state source dest st)).1.
Proof.
  rewrite organise_eq.
  destruct (loop dest files (start_state source dest st)) as [st' [e|[]]]; simpl; [done|].
  rewrite elem_of_app, list_elem_of_singleton. split; [intros [?|?]; done|by left].
Qed.


(** *** No duplicates within a category *)

Lemma NoDup_fmap_eq {A B : Type} (g : A → B) (l : list A) (x y : A) :
  NoDup (g <$> l) → x ∈ l → y ∈ l → g x = g y → x = y.
Proof.
  induction l as [|a l IH]; intros Hnd Hx Hy Heq; [by inversion Hx|].
  rewrite fmap_cons in Hnd. apply NoDup_cons in Hnd as [Ha Hnd].
  apply elem_of_cons in Hx as [->|Hx]; apply elem_of_cons in Hy as [->|Hy].
  - done.
  - exfalso. apply Ha. rewrite Heq. by apply list_elem_of_fmap_2.
  - exfalso. apply Ha. rewrite <- Heq. by apply list_elem_of_fmap_2.
  - by apply IH.
Qed.







(** *** Categories are de-duplicated apart *)




(** *** The hash is recorded before the copy *)



(** *** Determinism *)

Lemma step_same_core (d1 d2 : string) (f : src_file) (st1 st2 : state) :
  same_core st1 st2 → same_core (step d1 f st1).1 (step d2 f st2).1.
Proof.
  intros [Hs Hd].
  destruct (process_file_cases d1 f st1) as [R1 E1|R1 S1 E1|w1 n1 q1 R1 N1 W1 Nm1 U1 Q1 E1];
    destruct (process_file_cases d2 f st2)
      as [R2 E2|R2 S2 E2|w2 n2 q2 R2 N2 W2 Nm2 U2 Q2 E2];
    rewrite E1, E2; try congruence; try (by split).
  specialize (Nm1 st1). rewrite (Nm2 st1) in Nm1. injection Nm1 as _ <-.
  rewrite (Hd (categorize (f_name f))) in U1. rewrite U1 in U2. injection U2 as <-.
  split; simpl.
  - by rewrite Hs.
  - intros c. destruct (f_copy_fails f); [done|].
    rewrite !dir_of_insert. case_decide; [by rewrite Hd|done].
Qed.

Lemma loop_same_core (d1 d2 : string) (files : list src_file) (st1 st2 : state) :
  same_core st1 st2 →
  same_core (loop d1 files st1).1 (loop d2 files st2).1
  ∧ (loop d1 files st1).2 = (loop d2 files st2).2.
Proof.
  revert st1 st2. induction files as [|f rest IH]; intros st1 st2 Hcore; [done|].
  rewrite !loop_cons.
  pose proof (step_same_core d1 d2 f st1 st2 Hcore) as Hstep.
  pose proof (step_result d1 f st1) as Hr1. pose proof (step_result d2 f st2) as Hr2.
  destruct (step d1 f st1) as [s1 r1], (step d2 f st2) as [s2 r2]. simpl in *. subst.
  destruct (f_readable f); [by apply IH|done].
Qed.

(** C9. Determinism: two runs of [organise] on the same source tree,
    each into a destination whose category directories are empty,
    leave the same (category, file name, content) triples in the two
    destinations and end in the same way, whatever the destination
    roots and whatever state an earlier run left behind. *)
Theorem organise_deterministic (source : string) (files : list src_file)
    (dest1 dest2 : string) (st1 st2 : state) :
  fresh (dest_fs st1) → fresh (dest_fs st2) →
  let r1 := organise_run source dest1 files st1 in
  let r2 := organise_run source dest2 files st2 in
  r1.2 = r2.2
  ∧ ∀ c name content, holds r1.1 c name content ↔ holds r2.1 c name content.
Proof.
  intros F1 F2 r1 r2. subst r1 r2. rewrite !organise_eq.
  destruct (loop_same_core dest1 dest2 files
              (start_state source dest1 st1) (start_state source dest2 st2))
    as [[_ Hd] Hres].
  { split; [done|]. intros c. rewrite !start_state_dir. by rewrite F1, F2. }
  destruct (loop dest1 files (start_state source dest1 st1)) as [s1 [e1|[]]],
           (loop dest2 files (start_state source dest2 st2)) as [s2 [e2|[]]];
    simpl in *; try done; (split; [done|]); intros c name content; unfold holds;
    simpl; by rewrite Hd.
Qed.

(** *** Names of the copies *)

Lemma unique_path_free (dir : gmap string bytes) (filename : string) :
  dir !! filename = None → unique_path dir filename = Some filename.
Proof.
  intros Hfree. apply exists_in_false in Hfree. unfold unique_path.
  cbn [unique_path_loop]. by rewrite Hfree.
Qed.

(** C5. Rename correctness: a photo named [my photo.jpg] whose EXIF
    capture time reads [2021:05:02 14:30:00] is classified as a photo
    and gets the name [20210502_143000_my_photo.jpg], which is also
    the path that [unique_path] returns in a directory where that name
    is free. *)
Theorem rename_photo_example (f : src_file) (st : state)
    (other_tag : option exif_value) (dir : gmap string bytes) :
  pil_installed = true →
  f_name f = "my photo.jpg" →
  f_exif f = ExifTags (Some (ExifStr "2021:05:02 14:30:00")) other_tag →
  categorize (f_name f) = photo
  ∧ name_of f (categorize (f_name f)) st = (st, inr "20210502_143000_my_photo.jpg")
  ∧ (dir !! "20210502_143000_my_photo.jpg" = None →
     unique_path dir "20210502_143000_my_photo.jpg"
     = Some "20210502_143000_my_photo.jpg").
Proof.
  intros Hpil Hname Hexif. rewrite Hname. split; [reflexivity|]. split.
  - unfold new_name_of, get_photo_datetime. rewrite Hpil, Hexif, Hname.
    vm_compute. reflexivity.
  - apply unique_path_free.
Qed.

Lemma sanitized_name_all_space (s : string) :
  Str.all Str.isspace s = true → sanitized_name s = "".
Proof.
  intros H. unfold sanitized_name, Str.strip. by rewrite lstrip_all_space.
Qed.

Lemma media_ext_dot (ext : string) :
  is_media (category_of_ext ext) = true → ∃ e : string, ext = "." +:+ e.
Proof.
  unfold category_of_ext, ext_in.
  destruct (bool_decide (ext ∈ PHOTO_EXT)) eqn:Hp.
  - intros _. apply bool_decide_eq_true in Hp. unfold PHOTO_EXT in Hp.
    repeat (apply elem_of_cons in Hp as [->|Hp]; [by eexists|]). by inversion Hp.
  - destruct (bool_decide (ext ∈ VIDEO_EXT)) eqn:Hv.
    + intros _. apply bool_decide_eq_true in Hv. unfold VIDEO_EXT in Hv.
      repeat (apply elem_of_cons in Hv as [->|Hv]; [by eexists|]). by inversion Hv.
    + by repeat case_bool_decide.
Qed.

(** C10. A string made of white space only (the empty string
    included) is sanitized to the empty string; so a photo or a video
    whose stem is white space only gets a name made of the time stamp,
    an underscore and the lower-cased extension, with nothing between
    the underscore and the dot of the extension. *)
Theorem whitespace_stem_name :
  (∀ s : string, Str.all Str.isspace s = true → sanitized_name s = "")
  ∧ (∀ (f : src_file) (st : state),
       is_media (categorize (f_name f)) = true →
       Str.all Str.isspace (path_stem (f_name f)) = true →
       ∃ (st' : state) (dt : datetime) (e : string),
         name_of f (categorize (f_name f)) st
         = (st', inr (strftime dt +:+ "_" +:+ "." +:+ e))
         ∧ "." +:+ e = Str.lower (path_suffix (f_name f))).
Proof.
  split; [apply sanitized_name_all_space|].
  intros f st Hmedia Hstem.
  destruct (media_ext_dot _ Hmedia) as (e & He).
  unfold new_name_of. rewrite Hmedia.
  assert (∃ warn r, ∀ s, (if bool_decide (categorize (f_name f) = photo)
                          then photo_dt f else mret None) s
                         = (add_log s warn, inr r)) as (warn & r & Hdt).
  { case_bool_decide.
    - destruct (get_photo_datetime_run f) as (warn & r & _ & Hrun). by exists warn, r.
    - exists [], None. intros s. unfold mret, M_ret. by rewrite add_log_nil. }
  unfold mbind, M_bind. rewrite Hdt. unfold mret, M_ret.
  rewrite sanitized_name_all_space by done. rewrite He.
  by eexists _, _, e.
Qed.

End OrganiseProperties.

(** ** The examples *)

Example sanitized_name_examples :
  sanitized_name "my photo" = "my_photo"
  ∧ sanitized_name "  a  _ b__c " = "a_b_c"
  ∧ sanitized_name "_ x _" = "_x_"
  ∧ sanitized_name "   " = "".
Proof. repeat split; reflexivity. Qed.

Example path_examples :
  path_stem "my photo.JPG" = "my photo" ∧ path_suffix "my photo.JPG" = ".JPG"
  ∧ path_suffix ".bashrc" = "" ∧ path_suffix "a." = ""
  ∧ path_suffix "a.tar.gz" = ".gz" ∧ path_stem "a.tar.gz" = "a.tar".
Proof. repeat split; reflexivity. Qed.

Example strptime_examples :
  Strptime.strptime "2021:05:02 14:30:00" = Some (mk_datetime 2021 5 2 14 30 0)
  ∧ Strptime.strptime "2021:5:2  4:3:0" = Some (mk_datetime 2021 5 2 4 3 0)
  ∧ Strptime.strptime "2021:02:30 14:30:00" = None
  ∧ Strptime.strptime "2021:05:02 14:30:005" = None
  ∧ Strptime.strptime "2021-05-02 14:30:00" = None.
Proof. repeat split; vm_compute; reflexivity. Qed.

Example strftime_example :
  strftime (mk_datetime 2021 5 2 14 30 0) = "20210502_143000".
Proof. vm_compute. reflexivity. Qed.

Example unique_path_example :
  unique_path Ex.taken "a.txt" = Some "a_2.txt"
  ∧ unique_path Ex.taken "b.txt" = Some "b.txt".
Proof. split; vm_compute; reflexivity. Qed.


(** The messages that every run starts with. *)
Lemma start_log (source dest : string) :
  log (start_state source dest (mk_state ∅ ∅ []))
  = [LogStart source dest;
     LogCategoryDir photo (dest +:+ "/" +:+ CATEGORY_DIR photo);
     LogCategoryDir video (dest +:+ "/" +:+ CATEGORY_DIR video);
     LogCategoryDir music (dest +:+ "/" +:+ CATEGORY_DIR music);
     LogCategoryDir program (dest +:+ "/" +:+ CATEGORY_DIR program);
     LogCategoryDir other (dest +:+ "/" +:+ CATEGORY_DIR other)].
Proof. reflexivity. Qed.



(** C2 on the code.  [compute_sha256] is called outside any [try]: when
    [u.txt] cannot be read, [organise] ends with the exception, [v.txt]
    is never looked at, nothing is copied and the closing message is
    not logged. *)
Theorem read_error_aborts_run :
  let r := run Ex.digest Ex.decode true "/src" "/dst"
             [Ex.u_unreadable; Ex.v_readable] ∅ in
  r.2 = inl (OSError (f_path Ex.u_unreadable))
  ∧ log r.1
    = log (start_state "/src" "/dst" (mk_state ∅ ∅ [])) ++
      [LogProcessing (f_path Ex.u_unreadable) other]
  ∧ dir_of (dest_fs r.1) other = ∅
  ∧ f_readable Ex.v_readable = true.
Proof. repeat split; vm_compute; reflexivity. Qed.


Example no_duplicate_run :
  let r := run Ex.digest Ex.decode true "/src" "/dst" [Ex.p1; Ex.song; Ex.p2] ∅ in
  log r.1
  = log (start_state "/src" "/dst" (mk_state ∅ ∅ [])) ++
    [LogProcessing (f_path Ex.p1) photo;
     LogCopied (f_path Ex.p1) (mk_dst_path "/dst" photo "20200115_090000_x.jpg");
     LogProcessing (f_path Ex.song) music;
     LogCopied (f_path Ex.song) (mk_dst_path "/dst" music "x.mp3");
     LogProcessing (f_path Ex.p2) photo;
     LogSkipDuplicate (f_path Ex.p2);
     LogDone]
  ∧ dir_of (dest_fs r.1) photo = {[ "20200115_090000_x.jpg" := Ex.hello ]}
  ∧ dir_of (dest_fs r.1) music = {[ "x.mp3" := Ex.hello ]}.
Proof. repeat split; vm_compute; reflexivity. Qed.


Lemma rename_photo_example_witness :
  categorize (f_name Ex.my_photo) = photo
  ∧ new_name_of Ex.decode true Ex.my_photo (categorize (f_name Ex.my_photo))
      (mk_state ∅ ∅ [])
    = (mk_state ∅ ∅ [], inr "20210502_143000_my_photo.jpg")
  ∧ (Ex.taken !! "20210502_143000_my_photo.jpg" = None →
     unique_path Ex.taken "20210502_143000_my_photo.jpg"
     = Some "20210502_143000_my_photo.jpg").
Proof.
  apply (rename_photo_example Ex.decode true Ex.my_photo (mk_state ∅ ∅ []) None Ex.taken).
  - reflexivity.
  - reflexivity.
  - reflexivity.
Defined.

Example rename_photo_run :
  let r := run Ex.digest Ex.decode true "/src" "/dst" [Ex.my_photo] ∅ in
  log r.1
  = log (start_state "/src" "/dst" (mk_state ∅ ∅ [])) ++
    [LogProcessing (f_path Ex.my_photo) photo;
     LogCopied (f_path Ex.my_photo)
       (mk_dst_path "/dst" photo "20210502_143000_my_photo.jpg");
     LogDone].
Proof. vm_compute. reflexivity. Qed.

Lemma organise_deterministic_witness :
  let r1 := organise Ex.digest Ex.decode true "/src" "/dst1"
              [Ex.p1; Ex.song; Ex.p2] (mk_state ∅ ∅ []) in
  let r2 := organise Ex.digest Ex.decode true "/src" "/dst2"
              [Ex.p1; Ex.song; Ex.p2] Ex.used in
  r1.2 = r2.2
  ∧ ∀ c name content, holds r1.1 c name content ↔ holds r2.1 c name content.
Proof.
  apply (organise_deterministic Ex.digest Ex.decode true "/src"
           [Ex.p1; Ex.song; Ex.p2] "/dst1" "/dst2" (mk_state ∅ ∅ []) Ex.used).
  - intros c. destruct c; reflexivity.
  - intros c. destruct c; reflexivity.
Defined.

Lemma whitespace_stem_name_witness :
  sanitized_name "   " = ""
  ∧ ∃ (st' : state) (dt : datetime) (e : string),
      new_name_of Ex.decode true Ex.blank_photo
        (categorize (f_name Ex.blank_photo)) (mk_state ∅ ∅ [])
      = (st', inr (strftime dt +:+ "_" +:+ "." +:+ e))
      ∧ "." +:+ e = Str.lower (path_suffix (f_name Ex.blank_photo)).
Proof.
  destruct (whitespace_stem_name Ex.decode true) as [Hs Hf].
  split.
  - apply Hs. reflexivity.
  - apply Hf; reflexivity.
Defined.

Example whitespace_stem_run :
  new_name_of Ex.decode true Ex.blank_photo photo (mk_state ∅ ∅ [])
  = (mk_state ∅ ∅ [], inr "20200115_090000_.jpg").
Proof. vm_compute. reflexivity. Qed.

(** * Further properties *)

(** ** NameSanitizer *)

Lemma is_underscore_eq (c : ascii) : Str.is_underscore c = true → c = "_"%char.
Proof. unfold Str.is_underscore. by intros ?%Ascii.eqb_eq. Qed.

Lemma adjacent_cons (p : ascii → bool) (a b : ascii) (r : string) :
  StrP.adjacent p (String a (String b r))
  = p a && p b || StrP.adjacent p (String b r).
Proof. reflexivity. Qed.

(** After a run of underscores was replaced, no two underscores are
    neighbours, and the text that follows an underscore taken into the
    run does not start with one. *)
Lemma sub_underscores_apart (b : bool) (s : string) :
  StrP.adjacent Str.is_underscore (Str.sub_runs Str.is_underscore b s) = false
  ∧ (b = true →
     match Str.sub_runs Str.is_underscore b s with
     | String c _ => Str.is_underscore c = false
     | EmptyString => True
     end).
Proof.
  revert b. induction s as [|c s IH]; intros b; [by split|].
  cbn [Str.sub_runs]. destruct (Str.is_underscore c) eqn:Hc.
  - destruct b.
    + apply IH.
    + split; [|done]. destruct (IH true) as [Hadj Hhd].
      specialize (Hhd eq_refl).
      destruct (Str.sub_runs Str.is_underscore true s) as [|d r]; [done|].
      rewrite adjacent_cons, Hhd, Hadj. by rewrite andb_false_r.
  - destruct (IH false) as [Hadj _]. split; [|by intros _].
    destruct (Str.sub_runs Str.is_underscore false s) as [|d r]; [done|].
    by rewrite adjacent_cons, Hc, Hadj.
Qed.

Lemma sub_underscores_id (b : bool) (s : string) :
  StrP.adjacent Str.is_underscore s = false →
  (b = true → match s with
              | String c _ => Str.is_underscore c = false
              | EmptyString => True
              end) →
  Str.sub_runs Str.is_underscore b s = s.
Proof.
  revert b. induction s as [|c s IH]; intros b Hadj Hhd; [done|].
  cbn [Str.sub_runs]. destruct (Str.is_underscore c) eqn:Hc.
  - destruct b; [by specialize (Hhd eq_refl)|].
    rewrite (is_underscore_eq c Hc). f_equal.
    destruct s as [|d r]; [done|]. rewrite adjacent_cons, Hc in Hadj.
    apply orb_false_iff in Hadj as [Hd Hadj]. simpl in Hd.
    apply IH; [done|]. by intros _.
  - f_equal. apply IH; [|done].
    destruct s as [|d r]; [done|]. rewrite adjacent_cons in Hadj.
    by apply orb_false_iff in Hadj as [_ Hadj].
Qed.

Lemma sanitized_name_is_clean (x : string) : StrP.clean (sanitized_name x).
Proof.
  split; [apply sanitized_name_no_space|].
  unfold sanitized_name, Str.re_sub_plus. apply sub_underscores_apart.
Qed.

Lemma sanitized_name_of_clean (s : string) : StrP.clean s → sanitized_name s = s.
Proof.
  intros [Hws Hadj]. unfold sanitized_name, Str.re_sub_plus.
  rewrite strip_id by done. rewrite (sub_runs_id Str.isspace) by done.
  by apply sub_underscores_id.
Qed.

(** X1. The result of [sanitized_name] holds no white-space character
    and no two underscores side by side, whatever the input. *)
Theorem sanitized_name_clean (x : string) :
  Str.any Str.isspace (sanitized_name x) = false
  ∧ StrP.adjacent Str.is_underscore (sanitized_name x) = false.
Proof. exact (sanitized_name_is_clean x). Qed.

(** X2. [sanitized_name] leaves a string unchanged exactly when the
    string holds no white space and no two underscores side by side;
    leading and trailing underscores are kept. *)
Theorem sanitized_name_fixed_points (s : string) :
  sanitized_name s = s ↔ StrP.clean s.
Proof.
  split.
  - intros H. rewrite <- H. apply sanitized_name_is_clean.
  - apply sanitized_name_of_clean.
Qed.

Lemma remove_lstrip (s : string) :
  StrP.remove StrP.is_filler (Str.lstrip s) = StrP.remove StrP.is_filler s.
Proof.
  induction s as [|c s IH]; [done|]. cbn [Str.lstrip].
  destruct (Str.isspace c) eqn:Hc; [|done].
  cbn [StrP.remove]. unfold StrP.is_filler at 2. by rewrite Hc.
Qed.

Lemma remove_rstrip (s : string) :
  StrP.remove StrP.is_filler (Str.rstrip s) = StrP.remove StrP.is_filler s.
Proof.
  induction s as [|c s IH]; [done|]. cbn [Str.rstrip].
  destruct (Str.rstrip s) as [|d r] eqn:Hr.
  - destruct (Str.isspace c) eqn:Hc.
    + cbn [StrP.remove]. unfold StrP.is_filler at 1. rewrite Hc. simpl. by rewrite <- IH.
    + cbn [StrP.remove]. by rewrite <- IH.
  - cbn [StrP.remove]. by rewrite <- IH.
Qed.

Lemma remove_sub_runs (p : ascii → bool) (b : bool) (s : string) :
  (∀ c, p c = true → StrP.is_filler c = true) →
  StrP.remove StrP.is_filler (Str.sub_runs p b s) = StrP.remove StrP.is_filler s.
Proof.
  intros Hp. revert b. induction s as [|c s IH]; intros b; [done|].
  cbn [Str.sub_runs]. destruct (p c) eqn:Hc.
  - cbn [StrP.remove]. rewrite (Hp c Hc).
    destruct b; [apply IH|]. cbn [StrP.remove].
    change (StrP.is_filler "_") with true. cbn iota. apply IH.
  - cbn [StrP.remove]. by rewrite IH.
Qed.

(** X3. [sanitized_name] only touches white space and underscores: the
    other characters of the input are all in the result, in their
    order, and nothing else is. *)
Theorem sanitized_name_keeps_other_characters (x : string) :
  StrP.remove StrP.is_filler (sanitized_name x) = StrP.remove StrP.is_filler x.
Proof.
  unfold sanitized_name, Str.re_sub_plus, Str.strip.
  rewrite !remove_sub_runs, remove_rstrip, remove_lstrip; [done| |].
  - intros c Hc. unfold StrP.is_filler. by rewrite Hc.
  - intros c Hc. unfold StrP.is_filler. by rewrite Hc, orb_true_r.
Qed.

(** ** Path components *)

Lemma str_append_assoc (s t u : string) : (s +:+ t) +:+ u = s +:+ t +:+ u.
Proof. induction s as [|a s IH]; [done|]. rewrite !str_app_cons. by rewrite IH. Qed.

Lemma rfind_none (c : ascii) (s : string) :
  Str.rfind c s = None ↔ Str.any (λ a, Ascii.eqb a c) s = false.
Proof.
  induction s as [|a s IH]; [done|]. cbn [Str.rfind Str.any].
  destruct (Str.rfind c s) as [i|].
  - split; [done|]. intros [_ H]%orb_false_iff. by apply IH in H.
  - destruct (Ascii.eqb a c); [done|]. split; [|done]. intros _. by apply IH.
Qed.

(** The index that [rfind] returns is the place of the last [c]. *)
Lemma rfind_some (c : ascii) (s : string) (i : nat) :
  Str.rfind c s = Some i →
  ∃ e : string,
    Str.drop i s = String c e
    ∧ Str.any (λ a, Ascii.eqb a c) e = false
    ∧ String.length s = i + S (String.length e).
Proof.
  revert i. induction s as [|a s IH]; intros i; [done|]. cbn [Str.rfind].
  destruct (Str.rfind c s) as [j|] eqn:Hj.
  - intros [= <-]. destruct (IH j eq_refl) as (e & He & Hno & Hlen).
    exists e. split; [done|]. split; [done|]. simpl. lia.
  - destruct (Ascii.eqb a c) eqn:Ha; [|done]. intros [= <-].
    apply Ascii.eqb_eq in Ha as ->. exists s. split; [done|].
    split; [by apply rfind_none|]. simpl. lia.
Qed.

Lemma rfind_app (c : ascii) (s t : string) :
  Str.rfind c (s +:+ t)
  = match Str.rfind c t with
    | Some j => Some (String.length s + j)
    | None => Str.rfind c s
    end.
Proof.
  induction s as [|a s IH]; [rewrite str_app_nil_l; by destruct (Str.rfind c t)|].
  rewrite str_app_cons. cbn [Str.rfind]. rewrite IH.
  by destruct (Str.rfind c t).
Qed.

Lemma drop_app_length (s t : string) : Str.drop (String.length s) (s +:+ t) = t.
Proof.
  induction s as [|a s IH]; [rewrite str_app_nil_l; by destruct t|].
  by rewrite str_app_cons.
Qed.

Lemma has_suffix_bounds (name : string) (i : nat) :
  has_suffix name = Some i →
  Str.rfind "." name = Some i ∧ 0 < i ∧ i < String.length name - 1.
Proof.
  unfold has_suffix. destruct (Str.rfind "." name) as [j|]; [|done].
  destruct (0 <? j) eqn:H0; [|done]. destruct (j <? String.length name - 1) eqn:H1; [|done].
  intros [= <-]. apply Nat.ltb_lt in H0, H1. done.
Qed.

(** A suffix is a dot followed by at least one character, none of them
    a dot. *)
Lemma path_suffix_dot (name : string) :
  path_suffix name = ""
  ∨ ∃ e : string,
      path_suffix name = String "." e ∧ e ≠ "" ∧ Str.any StrP.is_dot e = false.
Proof.
  unfold path_suffix. destruct (has_suffix name) as [i|] eqn:Hi; [right|by left].
  apply has_suffix_bounds in Hi as (Hr & H0 & H1).
  destruct (rfind_some _ _ _ Hr) as (e & He & Hno & Hlen).
  exists e. split; [done|]. split; [|done].
  intros ->. simpl in Hlen. lia.
Qed.

(** X4. [Path.stem] and [Path.suffix] split the name: the stem followed
    by the suffix is the name; the stem of a non-empty name is not
    empty; and the suffix is either empty or a dot followed by at least
    one character, none of them a dot (so a leading dot as in
    [.bashrc] or a trailing dot as in [a.] starts no suffix). *)
Theorem stem_suffix_split (name : string) :
  path_stem name +:+ path_suffix name = name
  ∧ (name ≠ "" → path_stem name ≠ "")
  ∧ (path_suffix name = ""
     ∨ ∃ e : string,
         path_suffix name = String "." e ∧ e ≠ "" ∧ Str.any StrP.is_dot e = false).
Proof.
  split; [apply stem_suffix|]. split; [|apply path_suffix_dot].
  intros Hne. unfold path_stem. destruct (has_suffix name) as [i|] eqn:Hi; [|done].
  apply has_suffix_bounds in Hi as (_ & H0 & H1).
  destruct i as [|i]; [lia|]. by destruct name.
Qed.

Lemma stem_suffix_split_witness :
  path_stem "a.tar.gz" ≠ ""
  ∧ path_stem ".bashrc" +:+ path_suffix ".bashrc" = ".bashrc".
Proof.
  destruct (stem_suffix_split "a.tar.gz") as (_ & H & _).
  destruct (stem_suffix_split ".bashrc") as (H' & _ & _).
  split; [apply H; discriminate|exact H'].
Defined.

(** The suffix of a name that ends in a well-formed suffix. *)
Lemma path_suffix_app (pre e : string) :
  pre ≠ "" → e ≠ "" → Str.any StrP.is_dot e = false →
  path_suffix (pre +:+ String "." e) = String "." e.
Proof.
  intros Hpre He Hno. unfold path_suffix, has_suffix.
  rewrite rfind_app. cbn [Str.rfind].
  assert (Str.rfind "." e = None) as -> by by apply rfind_none.
  change (Ascii.eqb "." ".") with true. cbn iota.
  rewrite str_app_length. cbn [String.length].
  assert ((0 <? String.length pre + 0) = true) as ->.
  { apply Nat.ltb_lt. destruct pre; [done|]. simpl. lia. }
  assert ((String.length pre + 0 <? String.length pre + S (String.length e) - 1) = true) as ->.
  { apply Nat.ltb_lt. destruct e; [done|]. simpl. lia. }
  cbn [andb]. rewrite Nat.add_0_r. apply drop_app_length.
Qed.




(** A name that ends in a dot has no suffix, but its numbered form has
    one. *)
Example unique_path_trailing_dot :
  path_suffix "a." = ""
  ∧ unique_path {[ "a." := [] ]} "a." = Some "a._1"
  ∧ path_suffix "a._1" = "._1".
Proof. repeat split; vm_compute; reflexivity. Qed.

(** ** Classifier *)

Lemma lower_char_dot (a : ascii) :
  Ascii.eqb (Str.lower_char a) "." = Ascii.eqb a ".".
Proof. destruct a as [[|] [|] [|] [|] [|] [|] [|] [|]]; reflexivity. Qed.

Lemma lower_char_idem (a : ascii) :
  Str.lower_char (Str.lower_char a) = Str.lower_char a.
Proof. destruct a as [[|] [|] [|] [|] [|] [|] [|] [|]]; reflexivity. Qed.

Lemma lower_idem (s : string) : Str.lower (Str.lower s) = Str.lower s.
Proof. induction s as [|a s IH]; [done|]. simpl. by rewrite lower_char_idem, IH. Qed.

Lemma lower_length (s : string) : String.length (Str.lower s) = String.length s.
Proof. induction s as [|a s IH]; [done|]. simpl. by rewrite IH. Qed.

Lemma rfind_dot_lower (s : string) : Str.rfind "." (Str.lower s) = Str.rfind "." s.
Proof.
  induction s as [|a s IH]; [done|]. cbn [Str.lower Str.rfind].
  by rewrite IH, lower_char_dot.
Qed.

Lemma drop_lower (i : nat) (s : string) :
  Str.drop i (Str.lower s) = Str.lower (Str.drop i s).
Proof. revert s. induction i as [|i IH]; intros [|a s]; try done. apply IH. Qed.

(** Lower-casing the name lower-cases the suffix. *)
Lemma path_suffix_lower (name : string) :
  path_suffix (Str.lower name) = Str.lower (path_suffix name).
Proof.
  unfold path_suffix, has_suffix. rewrite rfind_dot_lower, lower_length.
  destruct (Str.rfind "." name) as [i|]; [|done].
  destruct (0 <? i); [|done]. destruct (i <? String.length name - 1); [|done].
  cbn [andb]. apply drop_lower.
Qed.

(** X5. Classification does not look at the case of letters: two names
    that are equal once lower-cased get the same category. *)
Theorem categorize_ignores_case (name1 name2 : string) :
  Str.lower name1 = Str.lower name2 → categorize name1 = categorize name2.
Proof.
  intros H. unfold categorize.
  rewrite <- (lower_idem (path_suffix name1)), <- (lower_idem (path_suffix name2)).
  rewrite <- !path_suffix_lower. by rewrite H.
Qed.

Lemma categorize_ignores_case_witness :
  categorize "Holiday.Mp4" = categorize "HOLIDAY.mP4".
Proof. apply categorize_ignores_case. reflexivity. Defined.

Lemma photo_ext_category (ext : string) : ext ∈ PHOTO_EXT → category_of_ext ext = photo.
Proof.
  intros H. unfold PHOTO_EXT in H.
  repeat (apply elem_of_cons in H as [->|H]; [reflexivity|]). by inversion H.
Qed.

Lemma video_ext_category (ext : string) : ext ∈ VIDEO_EXT → category_of_ext ext = video.
Proof.
  intros H. unfold VIDEO_EXT in H.
  repeat (apply elem_of_cons in H as [->|H]; [reflexivity|]). by inversion H.
Qed.

Lemma music_ext_category (ext : string) : ext ∈ MUSIC_EXT → category_of_ext ext = music.
Proof.
  intros H. unfold MUSIC_EXT in H.
  repeat (apply elem_of_cons in H as [->|H]; [reflexivity|]). by inversion H.
Qed.

Lemma program_ext_category (ext : string) :
  ext ∈ PROGRAM_EXT → category_of_ext ext = program.
Proof.
  intros H. unfold PROGRAM_EXT in H.
  repeat (apply elem_of_cons in H as [->|H]; [reflexivity|]). by inversion H.
Qed.

(** X6. The four extension tables do not overlap, so the order of the
    tests in [categorize] is immaterial: a name is classified [photo],
    [video], [music] or [program] exactly when its lower-cased suffix
    is in the table of that category, and [other] exactly when it is in
    none. *)
Theorem categorize_by_table (name : string) :
  let ext := Str.lower (path_suffix name) in
  (categorize name = photo ↔ ext ∈ PHOTO_EXT)
  ∧ (categorize name = video ↔ ext ∈ VIDEO_EXT)
  ∧ (categorize name = music ↔ ext ∈ MUSIC_EXT)
  ∧ (categorize name = program ↔ ext ∈ PROGRAM_EXT)
  ∧ (categorize name = other ↔
     (ext ∉ PHOTO_EXT) ∧ (ext ∉ VIDEO_EXT) ∧ (ext ∉ MUSIC_EXT) ∧ (ext ∉ PROGRAM_EXT)).
Proof.
  intros ext. unfold categorize. fold ext.
  pose proof (photo_ext_category ext) as Hp. pose proof (video_ext_category ext) as Hv.
  pose proof (music_ext_category ext) as Hm. pose proof (program_ext_category ext) as Hg.
  unfold category_of_ext, ext_in in *.
  repeat case_bool_decide;
    repeat match goal with
           | Hf : ?x ∈ ?T → _, Hx : ?x ∈ ?T |- _ => specialize (Hf Hx)
           end;
    repeat split; intros; try done; try (by destruct_and?); auto.
Qed.

(** ** DateResolver *)

Lemma N_forall_below (P : N → bool) (k : nat) :
  forallb P (N.of_nat <$> seq 0 k) = true →
  ∀ n : N, (n < N.of_nat k)%N → P n = true.
Proof.
  intros Hall n Hn. rewrite forallb_forall in Hall. apply Hall.
  apply list_elem_of_In, list_elem_of_fmap. exists (N.to_nat n).
  split; [lia|]. apply elem_of_seq. lia.
Qed.

Lemma two_digits (n : N) : (n < 100)%N → two_digits_ok n = true.
Proof. apply (N_forall_below two_digits_ok 100). vm_compute. reflexivity. Qed.

Lemma four_digits (y : N) : (y < 10000)%N → four_digits_ok y = true.
Proof.
  intros Hy. apply (N_forall_below four_digits_ok (100 * 100)).
  - vm_compute. reflexivity.
  - assert (N.of_nat (100 * 100) = 10000%N) as -> by (vm_compute; reflexivity). done.
Qed.

Lemma decimal2_eq (n : N) :
  (n < 100)%N →
  decimal 2 n = String (pretty_N_char (n / 10)) (String (pretty_N_char (n mod 10)) "")
  ∧ (n / 10 < 10)%N ∧ (n mod 10 < 10)%N ∧ (10 * (n / 10) + n mod 10 = n)%N.
Proof.
  intros Hn. pose proof (two_digits n Hn) as H. unfold two_digits_ok in H.
  rewrite !andb_true_iff in H. destruct H as (((H1 & H2) & H3) & H4).
  apply String.eqb_eq in H1. apply N.ltb_lt in H2, H3. apply N.eqb_eq in H4. done.
Qed.

Lemma decimal4_eq (y : N) :
  (y < 10000)%N →
  decimal 4 y
  = String (pretty_N_char (y / 1000)) (String (pretty_N_char (y / 100 mod 10))
      (String (pretty_N_char (y / 10 mod 10)) (String (pretty_N_char (y mod 10)) "")))
  ∧ (y / 1000 < 10)%N ∧ (y / 100 mod 10 < 10)%N ∧ (y / 10 mod 10 < 10)%N
  ∧ (y mod 10 < 10)%N
  ∧ (1000 * (y / 1000) + 100 * (y / 100 mod 10) + 10 * (y / 10 mod 10) + y mod 10 = y)%N.
Proof.
  intros Hy. pose proof (four_digits y Hy) as H. unfold four_digits_ok in H.
  rewrite !andb_true_iff in H. destruct H as (((((H1 & H2) & H3) & H4) & H5) & H6).
  apply String.eqb_eq in H1. apply N.ltb_lt in H2, H3, H4, H5. apply N.eqb_eq in H6. done.
Qed.

Lemma digit_cases (a : N) :
  (a < 10)%N →
  a = 0%N ∨ a = 1%N ∨ a = 2%N ∨ a = 3%N ∨ a = 4%N ∨ a = 5%N ∨ a = 6%N
  ∨ a = 7%N ∨ a = 8%N ∨ a = 9%N.
Proof. lia. Qed.

Lemma digit_of_char (a : N) :
  (a < 10)%N → Strptime.digit_of (pretty_N_char a) = Some a.
Proof. intros H. destruct (digit_cases a H) as [->|[->|[->|[->|[->|[->|[->|[->|[->| ->]]]]]]]]]; reflexivity. Qed.

Lemma char_not_space (a : N) : (a < 10)%N → Str.isspace (pretty_N_char a) = false.
Proof. intros H. destruct (digit_cases a H) as [->|[->|[->|[->|[->|[->|[->|[->|[->| ->]]]]]]]]]; reflexivity. Qed.

Lemma valid_bounds (dt : datetime) :
  Strptime.valid dt = true →
  (1 ≤ dt_year dt < 10000 ∧ 1 ≤ dt_month dt ≤ 12 ∧ 1 ≤ dt_day dt ≤ 31
   ∧ dt_hour dt < 24 ∧ dt_minute dt < 60 ∧ dt_second dt < 60)%N.
Proof.
  unfold Strptime.valid. rewrite !andb_true_iff, !N.leb_le.
  intros ((((((((? & ?) & ?) & ?) & ?) & Hd) & ?) & ?) & ?).
  assert (Strptime.days_in_month (dt_year dt) (dt_month dt) ≤ 31)%N.
  { unfold Strptime.days_in_month. repeat case_match; lia. }
  lia.
Qed.

Lemma str_app_nil_r (s : string) : s +:+ "" = s.
Proof. induction s as [|a s IH]; [done|]. rewrite str_app_cons. by rewrite IH. Qed.

Lemma bind_head {A B : Type} (p : Strptime.matcher A) (k : A → Strptime.matcher B)
    (s : string) (a : A) (r : string) (x : B * string) :
  head (p s) = Some (a, r) → head (k a r) = Some x →
  head (Strptime.bind p k s) = Some x.
Proof.
  unfold Strptime.bind. destruct (p s) as [|[a' r'] l]; [done|].
  intros [= -> ->]. simpl. by destruct (k a r).
Qed.

Lemma lit_head (c : ascii) (r : string) :
  head (Strptime.lit c (String c "" +:+ r)) = Some ((), r).
Proof. rewrite str_app_cons, str_app_nil_l. simpl. by rewrite Ascii.eqb_refl. Qed.

Lemma digit_head (lo hi a : N) (r : string) :
  (a < 10)%N → (lo ≤ a ≤ hi)%N →
  head (Strptime.digit lo hi (String (pretty_N_char a) r)) = Some (a, r).
Proof.
  intros Ha [Hlo Hhi]. unfold Strptime.digit. rewrite digit_of_char by done.
  apply N.leb_le in Hlo, Hhi. by rewrite Hlo, Hhi.
Qed.

Lemma re_Y_head (y : N) (rest : string) :
  (y < 10000)%N →
  head (Strptime.re_Y (decimal 4 y +:+ rest)) = Some (y, rest).
Proof.
  intros Hy. destruct (decimal4_eq y Hy) as (-> & Ha & Hb & Hc & Hd & Hsum).
  set (a := (y / 1000)%N) in *. set (b := (y / 100 mod 10)%N) in *.
  set (c := (y / 10 mod 10)%N) in *. set (d := (y mod 10)%N) in *.
  clearbody a b c d.
  rewrite !str_app_cons, str_app_nil_l. unfold Strptime.re_Y.
  eapply bind_head; [apply digit_head; lia|].
  eapply bind_head; [apply digit_head; lia|].
  eapply bind_head; [apply digit_head; lia|].
  eapply bind_head; [apply digit_head; lia|].
  unfold Strptime.ret. simpl. by rewrite Hsum.
Qed.

(** A two-digit field is read back from its text, for each value of a
    range; the values are tried one by one. *)
Ltac field_head lo len :=
  let n := fresh "n" in let rest := fresh "rest" in let Hn := fresh "Hn" in
  let Hall := fresh "Hall" in
  intros n rest Hn;
  match goal with
  | |- head (?re (decimal 2 n +:+ rest)) = Some (n, rest) =>
      assert (Forall (λ i, head (re (decimal 2 i +:+ rest)) = Some (i, rest))
                (N.of_nat <$> seq lo len)) as Hall;
      [ let l := eval vm_compute in (N.of_nat <$> seq lo len) in
        change (N.of_nat <$> seq lo len) with l;
        repeat (constructor; [vm_compute; reflexivity|]); constructor
      | rewrite Forall_forall in Hall; apply Hall;
        apply list_elem_of_fmap; exists (N.to_nat n);
        split; [lia|apply elem_of_seq; lia] ]
  end.

Lemma re_m_head :
  ∀ (n : N) (rest : string), (1 ≤ n ≤ 12)%N →
    head (Strptime.re_m (decimal 2 n +:+ rest)) = Some (n, rest).
Proof. field_head 1 12. Qed.

Lemma re_d_head :
  ∀ (n : N) (rest : string), (1 ≤ n ≤ 31)%N →
    head (Strptime.re_d (decimal 2 n +:+ rest)) = Some (n, rest).
Proof. field_head 1 31. Qed.

Lemma re_H_head :
  ∀ (n : N) (rest : string), (n < 24)%N →
    head (Strptime.re_H (decimal 2 n +:+ rest)) = Some (n, rest).
Proof. field_head 0 24. Qed.

Lemma re_M_head :
  ∀ (n : N) (rest : string), (n < 60)%N →
    head (Strptime.re_M (decimal 2 n +:+ rest)) = Some (n, rest).
Proof. field_head 0 60. Qed.

Lemma re_S_head :
  ∀ (n : N) (rest : string), (n < 60)%N →
    head (Strptime.re_S (decimal 2 n +:+ rest)) = Some (n, rest).
Proof. field_head 0 60. Qed.

Lemma spaces_head (n : N) (rest : string) :
  (n < 100)%N →
  head (Strptime.spaces (String " " "" +:+ decimal 2 n +:+ rest))
  = Some ((), decimal 2 n +:+ rest).
Proof.
  intros Hn. destruct (decimal2_eq n Hn) as (-> & Ha & _).
  rewrite !str_app_cons, !str_app_nil_l. unfold Strptime.spaces. cbn [Strptime.spaces_from].
  change (Str.isspace " ") with true. cbn iota. by rewrite char_not_space.
Qed.

Lemma pattern_head (dt : datetime) :
  Strptime.valid dt = true →
  head (Strptime.pattern (exif_text dt)) = Some (dt, "").
Proof.
  intros Hv. apply valid_bounds in Hv. destruct dt as [y m d h mi sec]. simpl in Hv.
  unfold exif_text, Strptime.pattern. cbn [dt_year dt_month dt_day dt_hour dt_minute dt_second].
  rewrite <- (str_app_nil_r (decimal 2 sec)).
  eapply bind_head; [apply re_Y_head; lia|].
  eapply bind_head; [apply lit_head|].
  eapply bind_head; [apply re_m_head; lia|].
  eapply bind_head; [apply lit_head|].
  eapply bind_head; [apply re_d_head; lia|].
  eapply bind_head; [apply spaces_head; lia|].
  eapply bind_head; [apply re_H_head; lia|].
  eapply bind_head; [apply lit_head|].
  eapply bind_head; [apply re_M_head; lia|].
  eapply bind_head; [apply lit_head|].
  eapply bind_head; [apply re_S_head; lia|].
  reflexivity.
Qed.

Lemma strptime_exif_text (dt : datetime) :
  Strptime.valid dt = true → Strptime.strptime (exif_text dt) = Some dt.
Proof.
  intros Hv. pose proof (pattern_head dt Hv) as Hh. unfold Strptime.strptime.
  destruct (Strptime.pattern (exif_text dt)) as [|[dt' r] l]; [done|].
  injection Hh as -> ->. by rewrite Hv.
Qed.

Lemma strptime_valid (s : string) (dt : datetime) :
  Strptime.strptime s = Some dt → Strptime.valid dt = true.
Proof.
  unfold Strptime.strptime. destruct (Strptime.pattern s) as [|[dt' [|]] l]; [done| |done].
  destruct (Strptime.valid dt') eqn:Hv; [|done]. by intros [= <-].
Qed.

(** X8. [strptime] with the format of [get_photo_datetime] reads back
    every valid date from its text [YYYY:MM:DD HH:MM:SS], and whatever
    date it returns for any text is valid: the month is 1 to 12, the day
    exists in that month of that year, and the time is below 24:60:60. *)
Theorem strptime_round_trip :
  (∀ dt : datetime,
     Strptime.valid dt = true → Strptime.strptime (exif_text dt) = Some dt)
  ∧ (∀ (s : string) (dt : datetime),
       Strptime.strptime s = Some dt → Strptime.valid dt = true).
Proof. split; [apply strptime_exif_text|apply strptime_valid]. Qed.

Lemma strptime_round_trip_witness :
  Strptime.strptime (exif_text (mk_datetime 2024 2 29 23 59 59))
  = Some (mk_datetime 2024 2 29 23 59 59)
  ∧ Strptime.valid (mk_datetime 2021 5 2 14 30 0) = true.
Proof.
  destruct strptime_round_trip as [H1 H2]. split.
  - apply H1. reflexivity.
  - apply (H2 "2021:05:02 14:30:00"). vm_compute. reflexivity.
Defined.

Lemma all_app (p : ascii → bool) (s t : string) :
  Str.all p (s +:+ t) = Str.all p s && Str.all p t.
Proof.
  induction s as [|a s IH]; [done|]. rewrite str_app_cons. simpl.
  by rewrite IH, andb_assoc.
Qed.

Lemma any_app (p : ascii → bool) (s t : string) :
  Str.any p (s +:+ t) = Str.any p s || Str.any p t.
Proof.
  induction s as [|a s IH]; [done|]. rewrite str_app_cons. simpl.
  by rewrite IH, orb_assoc.
Qed.

Lemma char_is_digit (a : N) : (a < 10)%N → is_digit (pretty_N_char a) = true.
Proof. intros H. unfold is_digit. by rewrite digit_of_char. Qed.

Lemma decimal2_shape (n : N) :
  (n < 100)%N →
  String.length (decimal 2 n) = 2 ∧ Str.all is_stamp_char (decimal 2 n) = true.
Proof.
  intros Hn. destruct (decimal2_eq n Hn) as (-> & Ha & Hb & _).
  split; [done|]. unfold is_stamp_char. simpl. by rewrite !char_is_digit.
Qed.

Lemma decimal4_shape (y : N) :
  (y < 10000)%N →
  String.length (decimal 4 y) = 4 ∧ Str.all is_stamp_char (decimal 4 y) = true.
Proof.
  intros Hy. destruct (decimal4_eq y Hy) as (-> & Ha & Hb & Hc & Hd & _).
  split; [done|]. unfold is_stamp_char. simpl. by rewrite !char_is_digit.
Qed.



Lemma strftime_shape (dt : datetime) :
  Strptime.valid dt = true →
  String.length (strftime dt) = 15 ∧ Str.all is_stamp_char (strftime dt) = true.
Proof.
  intros Hv. apply valid_bounds in Hv. unfold strftime.
  destruct (decimal4_shape (dt_year dt)) as [L1 A1]; [lia|].
  destruct (decimal2_shape (dt_month dt)) as [L2 A2]; [lia|].
  destruct (decimal2_shape (dt_day dt)) as [L3 A3]; [lia|].
  destruct (decimal2_shape (dt_hour dt)) as [L4 A4]; [lia|].
  destruct (decimal2_shape (dt_minute dt)) as [L5 A5]; [lia|].
  destruct (decimal2_shape (dt_second dt)) as [L6 A6]; [lia|].
  split.
  - rewrite !str_app_length, L1, L2, L3, L4, L5, L6. reflexivity.
  - rewrite !all_app, A1, A2, A3, A4, A5, A6. reflexivity.
Qed.




(** ** Names of photos and videos *)

Section Naming.

Variable decode_ignore : bytes → string.
Variable pil_installed : bool.

Local Abbreviation photo_datetime := (get_photo_datetime decode_ignore pil_installed).
Local Abbreviation name_for := (new_name_of decode_ignore pil_installed).

(** What [get_photo_datetime] returns for the tags of a file. *)
Lemma photo_datetime_tags (f : src_file) (dto dtag : option exif_value) (st : state) :
  pil_installed = true → f_exif f = ExifTags dto dtag →
  photo_datetime f st
  = (st, inr (match chosen_tag dto dtag with
              | Some tag =>
                  if truthy (Some tag)
                  then Strptime.strptime (tag_text decode_ignore tag) else None
              | None => None
              end)).
Proof.
  intros Hpil Hexif. unfold get_photo_datetime, chosen_tag. rewrite Hpil, Hexif.
  cbn [negb]. destruct (if truthy dto then dto else dtag) as [[s|b]|]; [| |done].
  - by destruct (truthy (Some (ExifStr s))).
  - by destruct (truthy (Some (ExifBytes b))).
Qed.

Lemma name_for_photo (f : src_file) (st st' : state) (r : option datetime) :
  photo_datetime f st = (st', inr r) →
  name_for f photo st = (st', inr (media_name (default (f_mtime f) r) f)).
Proof.
  intros H. unfold new_name_of. cbn [is_media]. rewrite bool_decide_eq_true_2 by done.
  unfold mbind, M_bind. by rewrite H.
Qed.

Lemma name_for_video (f : src_file) (st : state) :
  name_for f video st = (st, inr (media_name (f_mtime f) f)).
Proof. reflexivity. Qed.


(** X11. The date falls back to the modification time: the name of a
    video is always built from it, whatever the EXIF data; so is the
    name of a photo when PIL is missing, when the file has no EXIF data,
    when both tags are missing or empty, and when the text of the chosen
    tag is not a date, even if the other tag holds one.  When the EXIF
    read raises, the name is built from the modification time too and
    one warning is logged. *)
Theorem date_falls_back_to_mtime (f : src_file) (st : state) :
  name_for f video st = (st, inr (media_name (f_mtime f) f))
  ∧ (pil_installed = false →
     name_for f photo st = (st, inr (media_name (f_mtime f) f)))
  ∧ (f_exif f = ExifEmpty →
     name_for f photo st = (st, inr (media_name (f_mtime f) f)))
  ∧ (∀ dto dtag,
       f_exif f = ExifTags dto dtag →
       truthy (chosen_tag dto dtag) = false
       ∨ (∃ tag, chosen_tag dto dtag = Some tag
                 ∧ Strptime.strptime (tag_text decode_ignore tag) = None) →
       name_for f photo st = (st, inr (media_name (f_mtime f) f)))
  ∧ (pil_installed = true → f_exif f = ExifRaises →
     name_for f photo st
     = (add_log st [LogExifWarning (f_path f)], inr (media_name (f_mtime f) f))).
Proof.
  split; [apply name_for_video|]. split; [|split; [|split]].
  - intros Hpil. apply (name_for_photo f st st None).
    unfold get_photo_datetime. by rewrite Hpil.
  - intros Hexif. apply (name_for_photo f st st None).
    unfold get_photo_datetime. rewrite Hexif. by destruct (negb pil_installed).
  - intros dto dtag Hexif Hcase. apply (name_for_photo f st st None).
    destruct (Bool.bool_dec pil_installed true) as [Hpil|Hpil%not_true_is_false].
    + rewrite (photo_datetime_tags f dto dtag st Hpil Hexif).
      destruct Hcase as [Hfalse|(tag & -> & Hnone)].
      * destruct (chosen_tag dto dtag) as [tag|]; [by rewrite Hfalse|done].
      * rewrite Hnone. by destruct (truthy (Some tag)).
    + unfold get_photo_datetime. by rewrite Hpil.
  - intros Hpil Hexif.
    apply (name_for_photo f st (add_log st [LogExifWarning (f_path f)]) None).
    unfold get_photo_datetime. by rewrite Hpil, Hexif.
Qed.

Lemma photo_datetime_valid (f : src_file) (st st' : state) (dt : datetime) :
  photo_datetime f st = (st', inr (Some dt)) → Strptime.valid dt = true.
Proof.
  unfold get_photo_datetime. destruct (negb pil_installed); [done|].
  destruct (f_exif f) as [| |dto dtag]; [done..|].
  destruct (truthy (if truthy dto then dto else dtag)); [|done].
  destruct (if truthy dto then dto else dtag) as [[s|b]|]; [| |done];
    unfold mret, M_ret; intros [= _ H]; by apply strptime_valid in H.
Qed.

End Naming.

Lemma stamp_char_not_space (c : ascii) :
  is_stamp_char c = true → Str.isspace c = false.
Proof. destruct c as [[|] [|] [|] [|] [|] [|] [|] [|]]; (reflexivity || discriminate). Qed.

Lemma all_stamp_no_space (s : string) :
  Str.all is_stamp_char s = true → Str.any Str.isspace s = false.
Proof.
  induction s as [|c s IH]; [done|]. simpl. intros [Hc Hs]%andb_true_iff.
  by rewrite (stamp_char_not_space c Hc), IH.
Qed.

Lemma lower_no_dot (s : string) :
  Str.any StrP.is_dot (Str.lower s) = Str.any StrP.is_dot s.
Proof.
  induction s as [|c s IH]; [done|]. simpl. unfold StrP.is_dot at 1 3.
  by rewrite lower_char_dot, IH.
Qed.

Lemma media_ext_no_space (ext : string) :
  is_media (category_of_ext ext) = true → Str.any Str.isspace ext = false.
Proof.
  unfold category_of_ext, ext_in.
  destruct (bool_decide (ext ∈ PHOTO_EXT)) eqn:Hp.
  - intros _. apply bool_decide_eq_true in Hp. unfold PHOTO_EXT in Hp.
    repeat (apply elem_of_cons in Hp as [->|Hp]; [reflexivity|]). by inversion Hp.
  - destruct (bool_decide (ext ∈ VIDEO_EXT)) eqn:Hv.
    + intros _. apply bool_decide_eq_true in Hv. unfold VIDEO_EXT in Hv.
      repeat (apply elem_of_cons in Hv as [->|Hv]; [reflexivity|]). by inversion Hv.
    + by repeat case_bool_decide.
Qed.

(** The suffix of the new name of a photo or video is the lower-cased
    suffix of the old name. *)
Lemma media_name_suffix (dt : datetime) (f : src_file) :
  path_suffix (f_name f) ≠ "" →
  path_suffix (media_name dt f) = Str.lower (path_suffix (f_name f)).
Proof.
  intros Hne. destruct (path_suffix_dot (f_name f)) as [?|(e & He & Hne' & Hno)]; [done|].
  unfold media_name. rewrite He. cbn [Str.lower].
  change (Str.lower_char ".") with "."%char.
  rewrite <- (str_append_assoc "_"), <- str_append_assoc.
  apply path_suffix_app.
  - intros H. apply (f_equal String.length) in H. rewrite !str_app_length in H.
    simpl in H. lia.
  - intros H. apply (f_equal String.length) in H. rewrite lower_length in H.
    by destruct e.
  - by rewrite lower_no_dot.
Qed.

(** The name built by line 194 has the lower-cased suffix of the old
    name, is classified as the old name is, and holds no white space
    when its date is valid. *)
Lemma media_name_properties (dt : datetime) (f : src_file) :
  is_media (categorize (f_name f)) = true →
  path_suffix (media_name dt f) = Str.lower (path_suffix (f_name f))
  ∧ categorize (media_name dt f) = categorize (f_name f)
  ∧ (Strptime.valid dt = true → Str.any Str.isspace (media_name dt f) = false).
Proof.
  intros Hmedia.
  assert (path_suffix (f_name f) ≠ "") as Hne.
  { intros H. unfold categorize in Hmedia. by rewrite H in Hmedia. }
  pose proof (media_name_suffix dt f Hne) as Hs.
  split; [done|]. split.
  - unfold categorize. by rewrite Hs, lower_idem.
  - intros Hv. unfold media_name. rewrite !any_app.
    rewrite (all_stamp_no_space (strftime dt)) by by apply strftime_shape.
    rewrite sanitized_name_no_space.
    by rewrite (media_ext_no_space _ Hmedia).
Qed.


Lemma date_falls_back_to_mtime_witness :
  new_name_of Ex.decode false Ex.my_photo photo (mk_state ∅ ∅ [])
  = (mk_state ∅ ∅ [], inr (media_name Ex.mtime Ex.my_photo)).
Proof.
  destruct (date_falls_back_to_mtime Ex.decode false Ex.my_photo (mk_state ∅ ∅ []))
    as (_ & H & _).
  apply H. reflexivity.
Defined.

(** X12. Renaming keeps the category and removes the white space: the
    new name that [organise] builds for a photo or video has the
    lower-cased suffix of the old name, is classified as the old name
    is, and holds no white-space character. *)
Theorem renamed_media_keep_category (decode_ignore : bytes → string)
    (pil_installed : bool) (f : src_file) (st : state) :
  is_media (categorize (f_name f)) = true →
  Strptime.valid (f_mtime f) = true →
  ∃ (st' : state) (name : string),
    new_name_of decode_ignore pil_installed f (categorize (f_name f)) st
    = (st', inr name)
    ∧ path_suffix name = Str.lower (path_suffix (f_name f))
    ∧ categorize name = categorize (f_name f)
    ∧ Str.any Str.isspace name = false.
Proof.
  intros Hmedia Hmtime.
  assert (∃ st' dt, new_name_of decode_ignore pil_installed f (categorize (f_name f)) st
                    = (st', inr (media_name dt f))
                    ∧ Strptime.valid dt = true) as (st' & dt & Hname & Hvalid).
  { destruct (categorize (f_name f)); try done.
    - destruct (get_photo_datetime_run decode_ignore pil_installed f)
        as (warn & r & _ & Hrun).
      exists (add_log st warn), (default (f_mtime f) r). split.
      + by apply name_for_photo.
      + destruct r as [dt|]; [|done].
        by apply (photo_datetime_valid decode_ignore pil_installed f st (add_log st warn)).
    - exists st, (f_mtime f). by split. }
  destruct (media_name_properties dt f Hmedia) as (H1 & H2 & H3).
  exists st', (media_name dt f). repeat split; auto.
Qed.

Lemma renamed_media_keep_category_witness :
  ∃ (st' : state) (name : string),
    new_name_of Ex.decode true Ex.my_photo (categorize (f_name Ex.my_photo))
      (mk_state ∅ ∅ [])
    = (st', inr name)
    ∧ path_suffix name = Str.lower (path_suffix (f_name Ex.my_photo))
    ∧ categorize name = categorize (f_name Ex.my_photo)
    ∧ Str.any Str.isspace name = false.
Proof.
  apply (renamed_media_keep_category Ex.decode true Ex.my_photo (mk_state ∅ ∅ []));
    reflexivity.
Defined.

(** A [DateTimeOriginal] that is not a date hides a [DateTime] that is
    one: the modification time is used. *)
Example malformed_original_hides_datetime :
  new_name_of Ex.decode true
    (mk_src_file "/src" "p.jpg" true Ex.hello Ex.mtime
       (ExifTags (Some (ExifStr "yesterday")) (Some (ExifStr "2021:05:02 14:30:00")))
       false)
    photo (mk_state ∅ ∅ [])
  = (mk_state ∅ ∅ [], inr "20200115_090000_p.jpg").
Proof. vm_compute. reflexivity. Qed.

(** ** Organizer: what a run does to the destination *)

Section RunProperties.

Variable sha256 : bytes → string.
Variable decode_ignore : bytes → string.
Variable pil_installed : bool.

Local Abbreviation turn := (process_file sha256 decode_ignore pil_installed).
Local Abbreviation turns := (organise_loop sha256 decode_ignore pil_installed).
Local Abbreviation run_from := (run sha256 decode_ignore pil_installed).
Local Abbreviation turn_cases := (process_file_cases sha256 decode_ignore pil_installed).
Local Abbreviation hash_of := (λ f : src_file, sha256 (f_content f)).
Local Abbreviation cat_of := (λ f : src_file, categorize (f_name f)).

Lemma run_eq (source dest : string) (files : list src_file)
    (fs : gmap category (gmap string bytes)) :
  run_from source dest files fs
  = match turns dest files (start_state source dest (mk_state ∅ fs [])) with
    | (st', inl e) => (st', inl e)
    | (st', inr _) => (add_log st' [LogDone], inr ())
    end.
Proof. reflexivity. Qed.

Lemma run_dest_fs (source dest : string) (files : list src_file)
    (fs : gmap category (gmap string bytes)) :
  dest_fs (run_from source dest files fs).1
  = dest_fs (turns dest files (start_state source dest (mk_state ∅ fs []))).1.
Proof.
  rewrite run_eq.
  by destruct (turns dest files (start_state source dest (mk_state ∅ fs []))) as [? [?|[]]].
Qed.

Lemma run_copied (source dest : string) (files : list src_file)
    (fs : gmap category (gmap string bytes)) (sp : src_path) (p : dst_path) :
  LogCopied sp p ∈ log (run_from source dest files fs).1
  ↔ LogCopied sp p ∈ log (turns dest files (start_state source dest (mk_state ∅ fs []))).1.
Proof. apply organise_copied. Qed.

Lemma start_not_copied (source dest : string) (fs : gmap category (gmap string bytes))
    (sp : src_path) (p : dst_path) :
  LogCopied sp p ∉ log (start_state source dest (mk_state ∅ fs [])).
Proof. intros H%start_state_copied. by inversion H. Qed.


(** X13. A run never overwrites or removes what the destination
    directories held before: every entry is still there with its
    content afterwards. *)
Theorem existing_entries_kept (source dest : string) (files : list src_file)
    (fs : gmap category (gmap string bytes)) (c : category) (name : string)
    (content : bytes) :
  dir_of fs c !! name = Some content →
  holds (run_from source dest files fs).1 c name content.
Proof.
  intros H. unfold holds. rewrite run_dest_fs. apply loop_holds_mono.
  unfold holds. by rewrite start_state_dir.
Qed.

Lemma turn_none_before (dest : string) (f : src_file) (st : state)
    (c : category) (name : string) :
  dir_of (dest_fs (turn dest f st).1) c !! name = None →
  dir_of (dest_fs st) c !! name = None.
Proof.
  intros Hnone. destruct (dir_of (dest_fs st) c !! name) as [b|] eqn:Hb; [|done].
  apply (step_holds_mono sha256 decode_ignore pil_installed dest f) in Hb.
  unfold holds in Hb. congruence.
Qed.

(** A copy logged in a turn went to a free name of the directory of the
    file's category, and the directory holds the file's bytes under
    that name after the turn. *)
Lemma turn_copied_rich (dest : string) (f : src_file) (st : state)
    (sp : src_path) (p : dst_path) :
  LogCopied sp p ∈ log (turn dest f st).1 →
  LogCopied sp p ∈ log st
  ∨ (sp = f_path f ∧ f_readable f = true ∧ f_copy_fails f = false
     ∧ (hash_of f ∉ seen_of (seen_hashes st) (cat_of f))
     ∧ dp_root p = dest ∧ dp_category p = cat_of f
     ∧ dir_of (dest_fs st) (cat_of f) !! dp_name p = None
     ∧ holds (turn dest f st).1 (cat_of f) (dp_name p) (f_content f)).
Proof.
  destruct (turn_cases dest f st) as [? ->|? ? ->|warn name q Hr Hnew Hw ? ? Hq ->]; simpl.
  - rewrite elem_of_app, list_elem_of_singleton. intros [?|?]; [by left|done].
  - rewrite elem_of_app, !elem_of_cons.
    intros [?|[?|[?|Hnil]]]; [by left|done|done|by inversion Hnil].
  - rewrite elem_of_app, elem_of_cons, elem_of_app, list_elem_of_singleton.
    intros [?|[?|[Hin|Hin]]]; [by left|done| |].
    + destruct Hw as [->| ->]; [by inversion Hin|].
      by apply list_elem_of_singleton in Hin.
    + destruct (f_copy_fails f) eqn:Hfail; [done|]. injection Hin as -> ->. right.
      repeat split; try done. unfold holds. simpl.
      rewrite dir_of_insert, decide_True by done. apply lookup_insert_eq.
Qed.

Lemma turns_copied_rich (dest : string) (files : list src_file) (st : state)
    (sp : src_path) (p : dst_path) :
  LogCopied sp p ∈ log (turns dest files st).1 →
  LogCopied sp p ∈ log st
  ∨ ∃ f, f ∈ files ∧ sp = f_path f ∧ f_readable f = true ∧ f_copy_fails f = false
         ∧ (hash_of f ∉ seen_of (seen_hashes st) (cat_of f))
         ∧ dp_root p = dest ∧ dp_category p = cat_of f
         ∧ dir_of (dest_fs st) (cat_of f) !! dp_name p = None
         ∧ holds (turns dest files st).1 (cat_of f) (dp_name p) (f_content f).
Proof.
  revert st. induction files as [|f rest IH]; intros st Hin; [by left|].
  rewrite loop_cons in *.
  pose proof (turn_copied_rich dest f st sp p) as Hturn.
  pose proof (λ c h, step_seen_mono sha256 decode_ignore pil_installed dest f st c h) as Hmono.
  pose proof (λ c n, turn_none_before dest f st c n) as Hnone.
  destruct (turn dest f st) as [st' [e|[]]]; simpl in *.
  - destruct (Hturn Hin) as [?|(-> & ? & ? & ? & ? & ? & ? & ?)]; [by left|right].
    exists f. repeat split; try done. left.
  - destruct (IH st' Hin) as [Hold|(g & Hg & -> & ? & ? & Hnew & ? & ? & Hfree & Hholds)].
    + destruct (Hturn Hold) as [?|(-> & ? & ? & ? & ? & ? & ? & ?)]; [by left|right].
      exists f. repeat split; try done; [left|]. by apply loop_holds_mono.
    + right. exists g. repeat split; try done; [by right| |by apply Hnone].
      intros Hseen. apply Hnew. by apply Hmono.
Qed.

(** X14. Every copy that the log reports is intact at the end of the
    run: it went under the destination root into the directory of the
    file's category, to a name that did not exist there before the run,
    and that name still holds the bytes of the source file when the run
    ends; later copies never take its place. *)
Theorem logged_copies_are_intact (source dest : string) (files : list src_file)
    (fs : gmap category (gmap string bytes)) (f : src_file) (p : dst_path) :
  NoDup (f_path <$> files) → f ∈ files →
  LogCopied (f_path f) p ∈ log (run_from source dest files fs).1 →
  dp_root p = dest ∧ dp_category p = categorize (f_name f)
  ∧ dir_of fs (categorize (f_name f)) !! dp_name p = None
  ∧ holds (run_from source dest files fs).1 (categorize (f_name f)) (dp_name p)
      (f_content f).
Proof.
  intros Hnd Hf Hlog. apply run_copied in Hlog.
  apply turns_copied_rich in Hlog
    as [Hlog|(g & Hg & Hpath & _ & _ & _ & Hroot & Hcat & Hfree & Hholds)].
  { by apply start_not_copied in Hlog. }
  assert (f = g) as <- by by eapply (NoDup_fmap_eq f_path).
  split; [done|]. split; [done|]. split.
  - by rewrite start_state_dir in Hfree.
  - unfold holds. by rewrite run_dest_fs.
Qed.




















End RunProperties.

(** A second run into the same destination copies the file again,
    under a numbered name. *)
Example second_run_copies_again :
  let once := run Ex.digest Ex.decode true "/src" "/dst" [Ex.v_readable] ∅ in
  let twice := run Ex.digest Ex.decode true "/src" "/dst" [Ex.v_readable]
                 (dest_fs once.1) in
  dir_of (dest_fs once.1) other = {[ "v.txt" := Ex.hello ]}
  ∧ dir_of (dest_fs twice.1) other
    = <[ "v_1.txt" := Ex.hello ]> {[ "v.txt" := Ex.hello ]}.
Proof. split; vm_compute; reflexivity. Qed.

Lemma existing_entries_kept_witness :
  holds (run Ex.digest Ex.decode true "/src" "/dst" [Ex.a_failing; Ex.b_same]
           (<[other := Ex.taken]> ∅)).1 other "a.txt" Ex.hello.
Proof.
  apply (existing_entries_kept Ex.digest Ex.decode true). vm_compute. reflexivity.
Defined.

Lemma logged_copies_are_intact_witness :
  let r := run Ex.digest Ex.decode true "/src" "/dst" [Ex.p1; Ex.song; Ex.p2] ∅ in
  dir_of ∅ photo !! "20200115_090000_x.jpg" = None
  ∧ holds r.1 photo "20200115_090000_x.jpg" Ex.hello.
Proof.
  destruct (logged_copies_are_intact Ex.digest Ex.decode true "/src" "/dst"
              [Ex.p1; Ex.song; Ex.p2] ∅ Ex.p1
              (mk_dst_path "/dst" photo "20200115_090000_x.jpg")) as (_ & _ & H1 & H2).
  - apply (bool_decide_unpack _). vm_compute. exact I.
  - apply list_elem_of_here.
  - vm_compute. do 7 apply list_elem_of_further. apply list_elem_of_here.
  - split; [exact H1|exact H2].
Defined.






(** ** Hasher *)

Section ChunkProperties.

Variable H : Type.
Variable h_new : H.
Variable h_update : H → bytes → H.
Variable h_hexdigest : H → string.

Lemma hash_chunks_spec (n fuel : nat) (h : H) (rest : bytes) :
  0 < n → length rest < fuel →
  ∃ chunks : list bytes,
    hash_chunks H h_update fuel n h rest = Some (foldl h_update h chunks)
    ∧ concat chunks = rest
    ∧ Forall (λ c, 0 < length c ≤ n) chunks.
Proof.
  intros Hn. revert h rest. induction fuel as [|fuel IH]; intros h rest Hfuel; [lia|].
  cbn [hash_chunks file_read]. destruct rest as [|b rest].
  - exists []. by rewrite take_nil.
  - destruct n as [|n]; [lia|]. rewrite firstn_cons.
    destruct (IH (h_update h (b :: take n rest)) (drop (S n) (b :: rest)))
      as (chunks & Hrun & Hcat & Hall).
    { rewrite length_drop. simpl in *. lia. }
    exists ((b :: take n rest) :: chunks). split; [done|]. split.
    + simpl. rewrite Hcat. simpl. by rewrite take_drop.
    + apply Forall_cons. split; [|done]. simpl. rewrite length_take. lia.
Qed.

Lemma foldl_update_concat (h : H) (chunks : list bytes) :
  (∀ h a b, h_update (h_update h a) b = h_update h (a ++ b)) →
  (∀ h, h_update h [] = h) →
  foldl h_update h chunks = h_update h (concat chunks).
Proof.
  intros Hcat Hnil. revert h. induction chunks as [|c chunks IH]; intros h; simpl.
  - by rewrite Hnil.
  - by rewrite IH, Hcat.
Qed.

(** X21. [compute_sha256] reads the whole file in bounded pieces: for a
    chunk size above zero the loop ends, it feeds the hash object
    chunks that are not empty, have at most the chunk size, and put
    together in their order are the bytes of the file; for a hash
    object on which successive updates amount to one update with the
    concatenation, the digest is the digest of the whole content. *)
Theorem chunked_hash_is_hash_of_content (n : nat) (content : bytes) :
  0 < n →
  (∃ chunks : list bytes,
     sha256_by_chunks H h_new h_update h_hexdigest n content
     = Some (h_hexdigest (foldl h_update h_new chunks))
     ∧ concat chunks = content
     ∧ Forall (λ c, 0 < length c ≤ n) chunks)
  ∧ ((∀ h a b, h_update (h_update h a) b = h_update h (a ++ b)) →
     (∀ h, h_update h [] = h) →
     sha256_by_chunks H h_new h_update h_hexdigest n content
     = Some (h_hexdigest (h_update h_new content))).
Proof.
  intros Hn.
  destruct (hash_chunks_spec n (S (length content)) h_new content)
    as (chunks & Hrun & Hcat & Hall); [done|lia|].
  unfold sha256_by_chunks. rewrite Hrun. simpl. split.
  - by exists chunks.
  - intros Happ Hnil. by rewrite foldl_update_concat, Hcat.
Qed.

End ChunkProperties.

Lemma CHUNK_SIZE_pos : 0 < CHUNK_SIZE.
Proof.
  unfold CHUNK_SIZE. rewrite Nat.shiftl_mul_pow2.
  pose proof (Nat.pow_nonzero 2 20). lia.
Qed.

Lemma chunked_hash_is_hash_of_content_witness :
  sha256_by_chunks bytes [] (λ h b, h ++ b) Ex.digest CHUNK_SIZE Ex.hello
  = Some (Ex.digest ([] ++ Ex.hello)).
Proof.
  destruct (chunked_hash_is_hash_of_content bytes [] (λ h b, h ++ b) Ex.digest
              CHUNK_SIZE Ex.hello CHUNK_SIZE_pos) as [_ H].
  apply H.
  - intros h a b. symmetry. apply app_assoc.
  - intros h. apply app_nil_r.
Defined.

(** Chunks of two bytes; and a chunk size of zero would hash nothing. *)
Example chunks_of_two :
  hash_chunks (list bytes) (λ h c, h ++ [c]) 6 2 [] Ex.hello
  = Some [ [Byte.x68; Byte.x65]; [Byte.x6c; Byte.x6c]; [Byte.x6f] ]
  ∧ hash_chunks (list bytes) (λ h c, h ++ [c]) 6 0 [] Ex.hello = Some [].
Proof. split; vm_compute; reflexivity. Qed.

(** ** Date parts sort by time *)











(** ** Two files that ask for the same name *)


Section Collisions.

Variable sha256 : bytes → string.
Variable decode_ignore : bytes → string.
Variable pil_installed : bool.



End Collisions.

